(** * rviz [OdometryDisplay]: a trail of odometry arrows

    A shallow embedding of [src/default_plugin/odometry_display.cpp].
    The display object is a record; every method is a function from the
    object (and the scene it draws into) to the object after the call.
    Calls into the host and into ROS that leave no state behind in the
    display (property notifications, render requests, transform requests,
    error logging) are recorded in a log, newest entry first. *)

From Stdlib Require Import PrimFloat Uint63 QArith.
From stdpp Require Import gmap strings list.

Local Open Scope nat_scope.

(** ** Numbers of the external maths libraries

    OGRE, Bullet and the ROS message types compute on machine floats.
    None of that code belongs to this repository, so the scalar domains
    and the operations the display calls are an interface.  [Real] stands
    for every linear floating-point quantity ([double] message fields,
    [float] tolerances and colours, [Ogre::Real], [btScalar] lengths);
    [Radian] for the Euler angles handed from Bullet to OGRE. *)
Class Scalars := {
  Real : Type;
  Radian : Type;
  Matrix3 : Type;
  (** a decimal floating-point literal such as [0.1] or [1.0f] *)
  Rlit : Q → Real;
  Rsub : Real → Real → Real;
  (** [operator<] on floats *)
  Rltb : Real → Real → bool;
}.

Section Geometry.
Context `{Scalars}.

(** [Ogre::Vector3], [btVector3], [geometry_msgs::Point] *)
Record Vector3 := mkVector3 { vx : Real; vy : Real; vz : Real }.

(** [Ogre::Quaternion], [btQuaternion], [geometry_msgs::Quaternion] *)
Record Quaternion := mkQuaternion { qw : Real; qx : Real; qy : Real; qz : Real }.

(** [Ogre::Vector3::operator-] *)
Definition Vector3_sub (a b : Vector3) : Vector3 :=
  mkVector3 (Rsub (vx a) (vx b)) (Rsub (vy a) (vy b)) (Rsub (vz a) (vz b)).

(** [Ogre::Quaternion::operator-], component by component *)
Definition Quaternion_sub (a b : Quaternion) : Quaternion :=
  mkQuaternion (Rsub (qw a) (qw b)) (Rsub (qx a) (qx b))
               (Rsub (qy a) (qy b)) (Rsub (qz a) (qz b)).

(** [rviz::Color] *)
Record Color := mkColor { r_ : Real; g_ : Real; b_ : Real }.

(** [ros::Time] *)
Record Time := mkTime { sec : N; nsec : N }.

(** [roslib::Header] *)
Record Header := mkHeader { seq : N; stamp : Time; frame_id : string }.

(** [geometry_msgs::Pose] *)
Record Pose := mkPose { position : Vector3; orientation : Quaternion }.

(** [nav_msgs::Odometry]: the header and [pose.pose]; the display reads
    nothing else of the message. *)
Record Odometry := mkOdometry { header : Header; pose : Pose }.

(** [btTransform], as the rotation and the origin it is built from *)
Record btTransform := mkTransform { getRotation : Quaternion; getOrigin : Vector3 }.

(** [tf::Stamped<tf::Pose>] *)
Record StampedPose := mkStamped {
  data : btTransform;
  stamp_ : Time;
  frame_id_ : string;
}.

(** What [tf::Transformer::transformPose (target, in, out)] does: it
    writes [out], or throws a [tf::TransformException] and leaves [out]
    alone. *)
Inductive TfResult :=
| TfOk (out : StampedPose)
| TfThrow (what : string).

(** The transform listener at the time of one call. *)
Definition Transformer := string → StampedPose → TfResult.

(** [ogre_tools::Arrow]: the four floats its constructor is called
    with, in the order of the call, and the attributes the display sets
    ([None]: never set, the renderer's default).  A colour is red,
    green, blue, alpha; the user data is the address of a display. *)
Record Arrow := mkArrow {
  arrow_proportions : Real * Real * Real * Real;
  arrow_position : option Vector3;
  arrow_orientation : option Matrix3;
  arrow_color : option (Real * Real * Real * Real);
  arrow_user_data : option positive;
}.
End Geometry.

(** The operations of OGRE, Bullet and [rviz/common.h] the display calls. *)
Class OgreOps `{Scalars} := {
  (** [Ogre::Vector3::length] *)
  Vector3_length : Vector3 → Real;
  (** the value [Ogre::Quaternion::normalise] returns *)
  Quaternion_normalise : Quaternion → Real;
  (** [btMatrix3x3::getEulerZYX] of the basis of a rotation: yaw, pitch, roll *)
  getEulerZYX : Quaternion → Radian * Radian * Radian;
  (** [Ogre::Matrix3::FromEulerAnglesZXY] *)
  FromEulerAnglesZXY : Radian → Radian → Radian → Matrix3;
  (** [rviz::robotToOgre]: robot axes to renderer axes *)
  robotToOgre : Vector3 → Vector3;
}.

(** ** The display object *)

(** The properties the display registers in [createProperties]. *)
Inductive Property :=
| color_property_
| topic_property_
| position_tolerance_property_
| angle_tolerance_property_
| keep_property_.

Section Display.
Context `{OgreOps}.

(** Calls that leave the display: [propertyChanged], [causeRender],
    [tf_filter_.clear], the request sent to [transformPose] and
    [ROS_ERROR] with its three string arguments. *)
Inductive Call :=
| PropertyChanged (p : Property)
| CauseRender
| TfFilterClear
| TransformPose (target : string) (p : StampedPose)
| RosError (name frame fixed : string).

(** The display together with the [ogre_tools::Arrow] objects alive in
    the scene.  An [Arrow*] is the identity of an object: [objects_]
    maps the live ones to their attributes, [new] takes [next_object_]
    and [delete] removes the entry.  [enabled_], [fixed_frame_] and
    [name_] belong to the base class [Display]; [keep_] is a
    [uint32_t], on which the display does no arithmetic. *)
Record OdometryDisplay := mkDisplay {
  this_ : positive;
  name_ : string;
  enabled_ : bool;
  fixed_frame_ : string;
  objects_ : gmap positive Arrow;
  next_object_ : positive;
  scene_node_visible_ : bool;
  topic_ : string;
  color_ : Color;
  keep_ : N;
  position_tolerance_ : Real;
  angle_tolerance_ : Real;
  arrows_ : list positive;
  last_used_message_ : option Odometry;
  sub_ : option string;
  tf_filter_target_frame_ : string;
  log_ : list Call;
}.

(** Assignments to one member. *)
Definition set_enabled (v : bool) (d : OdometryDisplay) : OdometryDisplay :=
  mkDisplay (this_ d) (name_ d) v (fixed_frame_ d) (objects_ d) (next_object_ d)
    (scene_node_visible_ d) (topic_ d) (color_ d) (keep_ d) (position_tolerance_ d)
    (angle_tolerance_ d) (arrows_ d) (last_used_message_ d) (sub_ d)
    (tf_filter_target_frame_ d) (log_ d).
Definition set_fixed_frame (v : string) (d : OdometryDisplay) : OdometryDisplay :=
  mkDisplay (this_ d) (name_ d) (enabled_ d) v (objects_ d) (next_object_ d)
    (scene_node_visible_ d) (topic_ d) (color_ d) (keep_ d) (position_tolerance_ d)
    (angle_tolerance_ d) (arrows_ d) (last_used_message_ d) (sub_ d)
    (tf_filter_target_frame_ d) (log_ d).
Definition set_objects (v : gmap positive Arrow) (d : OdometryDisplay) : OdometryDisplay :=
  mkDisplay (this_ d) (name_ d) (enabled_ d) (fixed_frame_ d) v (next_object_ d)
    (scene_node_visible_ d) (topic_ d) (color_ d) (keep_ d) (position_tolerance_ d)
    (angle_tolerance_ d) (arrows_ d) (last_used_message_ d) (sub_ d)
    (tf_filter_target_frame_ d) (log_ d).
Definition set_next_object (v : positive) (d : OdometryDisplay) : OdometryDisplay :=
  mkDisplay (this_ d) (name_ d) (enabled_ d) (fixed_frame_ d) (objects_ d) v
    (scene_node_visible_ d) (topic_ d) (color_ d) (keep_ d) (position_tolerance_ d)
    (angle_tolerance_ d) (arrows_ d) (last_used_message_ d) (sub_ d)
    (tf_filter_target_frame_ d) (log_ d).
Definition set_scene_node_visible (v : bool) (d : OdometryDisplay) : OdometryDisplay :=
  mkDisplay (this_ d) (name_ d) (enabled_ d) (fixed_frame_ d) (objects_ d) (next_object_ d)
    v (topic_ d) (color_ d) (keep_ d) (position_tolerance_ d)
    (angle_tolerance_ d) (arrows_ d) (last_used_message_ d) (sub_ d)
    (tf_filter_target_frame_ d) (log_ d).
Definition set_topic (v : string) (d : OdometryDisplay) : OdometryDisplay :=
  mkDisplay (this_ d) (name_ d) (enabled_ d) (fixed_frame_ d) (objects_ d) (next_object_ d)
    (scene_node_visible_ d) v (color_ d) (keep_ d) (position_tolerance_ d)
    (angle_tolerance_ d) (arrows_ d) (last_used_message_ d) (sub_ d)
    (tf_filter_target_frame_ d) (log_ d).
Definition set_color (v : Color) (d : OdometryDisplay) : OdometryDisplay :=
  mkDisplay (this_ d) (name_ d) (enabled_ d) (fixed_frame_ d) (objects_ d) (next_object_ d)
    (scene_node_visible_ d) (topic_ d) v (keep_ d) (position_tolerance_ d)
    (angle_tolerance_ d) (arrows_ d) (last_used_message_ d) (sub_ d)
    (tf_filter_target_frame_ d) (log_ d).
Definition set_keep (v : N) (d : OdometryDisplay) : OdometryDisplay :=
  mkDisplay (this_ d) (name_ d) (enabled_ d) (fixed_frame_ d) (objects_ d) (next_object_ d)
    (scene_node_visible_ d) (topic_ d) (color_ d) v (position_tolerance_ d)
    (angle_tolerance_ d) (arrows_ d) (last_used_message_ d) (sub_ d)
    (tf_filter_target_frame_ d) (log_ d).
Definition set_position_tolerance (v : Real) (d : OdometryDisplay) : OdometryDisplay :=
  mkDisplay (this_ d) (name_ d) (enabled_ d) (fixed_frame_ d) (objects_ d) (next_object_ d)
    (scene_node_visible_ d) (topic_ d) (color_ d) (keep_ d) v
    (angle_tolerance_ d) (arrows_ d) (last_used_message_ d) (sub_ d)
    (tf_filter_target_frame_ d) (log_ d).
Definition set_angle_tolerance (v : Real) (d : OdometryDisplay) : OdometryDisplay :=
  mkDisplay (this_ d) (name_ d) (enabled_ d) (fixed_frame_ d) (objects_ d) (next_object_ d)
    (scene_node_visible_ d) (topic_ d) (color_ d) (keep_ d) (position_tolerance_ d)
    v (arrows_ d) (last_used_message_ d) (sub_ d)
    (tf_filter_target_frame_ d) (log_ d).
Definition set_arrows (v : list positive) (d : OdometryDisplay) : OdometryDisplay :=
  mkDisplay (this_ d) (name_ d) (enabled_ d) (fixed_frame_ d) (objects_ d) (next_object_ d)
    (scene_node_visible_ d) (topic_ d) (color_ d) (keep_ d) (position_tolerance_ d)
    (angle_tolerance_ d) v (last_used_message_ d) (sub_ d)
    (tf_filter_target_frame_ d) (log_ d).
Definition set_last_used_message (v : option Odometry) (d : OdometryDisplay) : OdometryDisplay :=
  mkDisplay (this_ d) (name_ d) (enabled_ d) (fixed_frame_ d) (objects_ d) (next_object_ d)
    (scene_node_visible_ d) (topic_ d) (color_ d) (keep_ d) (position_tolerance_ d)
    (angle_tolerance_ d) (arrows_ d) v (sub_ d)
    (tf_filter_target_frame_ d) (log_ d).
Definition set_sub (v : option string) (d : OdometryDisplay) : OdometryDisplay :=
  mkDisplay (this_ d) (name_ d) (enabled_ d) (fixed_frame_ d) (objects_ d) (next_object_ d)
    (scene_node_visible_ d) (topic_ d) (color_ d) (keep_ d) (position_tolerance_ d)
    (angle_tolerance_ d) (arrows_ d) (last_used_message_ d) v
    (tf_filter_target_frame_ d) (log_ d).
Definition set_tf_filter_target_frame (v : string) (d : OdometryDisplay) : OdometryDisplay :=
  mkDisplay (this_ d) (name_ d) (enabled_ d) (fixed_frame_ d) (objects_ d) (next_object_ d)
    (scene_node_visible_ d) (topic_ d) (color_ d) (keep_ d) (position_tolerance_ d)
    (angle_tolerance_ d) (arrows_ d) (last_used_message_ d) (sub_ d)
    v (log_ d).
Definition set_log (v : list Call) (d : OdometryDisplay) : OdometryDisplay :=
  mkDisplay (this_ d) (name_ d) (enabled_ d) (fixed_frame_ d) (objects_ d) (next_object_ d)
    (scene_node_visible_ d) (topic_ d) (color_ d) (keep_ d) (position_tolerance_ d)
    (angle_tolerance_ d) (arrows_ d) (last_used_message_ d) (sub_ d)
    (tf_filter_target_frame_ d) v.

(** *** Statements

    A member function is a state transformer over the display; one
    that returns a value pairs it with the state. *)
Definition M (A : Type) : Type := OdometryDisplay → A * OdometryDisplay.

Definition ret {A} (x : A) : M A := λ d, (x, d).
Definition bind {A B} (c : M A) (k : A → M B) : M B := λ d, k (c d).1 (c d).2.
Definition modify (f : OdometryDisplay → OdometryDisplay) : M unit := λ d, (tt, f d).
Definition gets {A} (f : OdometryDisplay → A) : M A := λ d, (f d, d).
(** the object after a call *)
Definition exec_ {A} (c : M A) (d : OdometryDisplay) : OdometryDisplay := (c d).2.
End Display.

Declare Scope stmt_scope.
Delimit Scope stmt_scope with stmt.
Notation "'let*' x := c 'in' k" := (bind c (λ x, k))
  (at level 10, x name, c at level 100, k at level 200) : stmt_scope.
Notation "c ;;; k" := (bind c (λ _, k))
  (at level 100, k at level 200, right associativity) : stmt_scope.

(** ** The member functions *)

Section Methods.
Context `{OgreOps}.
Local Open Scope stmt_scope.

(** *** What the display calls *)

Definition log (c : Call) : M unit := modify (λ d, set_log (c :: log_ d) d).
Definition propertyChanged (p : Property) : M unit := log (PropertyChanged p).
Definition causeRender : M unit := log CauseRender.

(** [new ogre_tools::Arrow (scene_manager_, scene_node_, a, b, c, e)] *)
Definition new_Arrow (a b c e : Real) : M positive := λ d,
  let p := next_object_ d in
  (p, set_next_object (Pos.succ p)
        (set_objects (<[p := mkArrow (a, b, c, e) None None None None]> (objects_ d)) d)).

(** [delete p] *)
Definition delete_Arrow (p : positive) : M unit :=
  modify (λ d, set_objects (delete p (objects_ d)) d).

(** The setters of an arrow, through a pointer.  (Through a pointer to
    a deleted arrow C++ gives them no meaning; here they do nothing.) *)
Definition on_Arrow (f : Arrow → Arrow) (p : positive) : M unit :=
  modify (λ d, set_objects (alter f p (objects_ d)) d).
Definition Arrow_setColor (p : positive) (r g b a : Real) : M unit :=
  on_Arrow (λ o, mkArrow (arrow_proportions o) (arrow_position o) (arrow_orientation o)
                         (Some (r, g, b, a)) (arrow_user_data o)) p.
Definition Arrow_setUserData (p : positive) (display : positive) : M unit :=
  on_Arrow (λ o, mkArrow (arrow_proportions o) (arrow_position o) (arrow_orientation o)
                         (arrow_color o) (Some display)) p.
Definition Arrow_setOrientation (p : positive) (m : Matrix3) : M unit :=
  on_Arrow (λ o, mkArrow (arrow_proportions o) (arrow_position o) (Some m)
                         (arrow_color o) (arrow_user_data o)) p.
Definition Arrow_setPosition (p : positive) (v : Vector3) : M unit :=
  on_Arrow (λ o, mkArrow (arrow_proportions o) (Some v) (arrow_orientation o)
                         (arrow_color o) (arrow_user_data o)) p.

(** [for ( ; it != end; ++it )] with the body run on [* it] *)
Fixpoint for_each {A} (body : A → M unit) (l : list A) : M unit :=
  match l with
  | [] => ret tt
  | x :: l' => body x ;;; for_each body l'
  end.

(** *** [OdometryDisplay] *)

(** The constructor: the colour (1.0, 0.1, 0.0), [keep_ (100)], both
    tolerances 0.1, a message filter with the target frame [""].  The
    base class starts disabled with no fixed frame; the scene is the
    manager's. *)
Definition OdometryDisplay_ctor (this : positive) (name : string)
    (objects : gmap positive Arrow) (next_object : positive) : OdometryDisplay :=
  mkDisplay this name false "" objects next_object true ""
    (mkColor (Rlit 1) (Rlit (1 # 10)) (Rlit 0)) 100%N
    (Rlit (1 # 10)) (Rlit (1 # 10)) [] None None "" [].

Definition clear : M unit :=
  (let* arrows := gets arrows_ in for_each delete_Arrow arrows) ;;;
  modify (set_arrows []) ;;;
  (let* last := gets last_used_message_ in
   match last with
   | Some _ => modify (set_last_used_message None)
   | None => ret tt
   end) ;;;
  log TfFilterClear.

Definition unsubscribe : M unit := modify (set_sub None).

Definition subscribe : M unit :=
  let* enabled := gets enabled_ in
  if negb enabled then ret tt
  else let* topic := gets topic_ in modify (set_sub (Some topic)).

Definition setTopic (topic : string) : M unit :=
  unsubscribe ;;;
  modify (set_topic topic) ;;;
  subscribe ;;;
  propertyChanged topic_property_ ;;;
  causeRender.

Definition setColor (color : Color) : M unit :=
  modify (set_color color) ;;;
  (let* arrows := gets arrows_ in
   for_each (λ arrow, Arrow_setColor arrow (r_ color) (g_ color) (b_ color) (Rlit 1)) arrows) ;;;
  propertyChanged color_property_ ;;;
  causeRender.

Definition setKeep (keep : N) : M unit :=
  modify (set_keep keep) ;;;
  propertyChanged keep_property_.

Definition setPositionTolerance (tol : Real) : M unit :=
  modify (set_position_tolerance tol) ;;;
  propertyChanged position_tolerance_property_.

Definition setAngleTolerance (tol : Real) : M unit :=
  modify (set_angle_tolerance tol) ;;;
  propertyChanged angle_tolerance_property_.

Definition onEnable : M unit :=
  modify (set_scene_node_visible true) ;;;
  subscribe.

Definition onDisable : M unit :=
  unsubscribe ;;;
  clear ;;;
  modify (set_scene_node_visible false).

(** The [try] block of [transformArrow]: the request goes to the
    listener; when it throws, the handler logs one error and [pose]
    keeps the value it had. *)
Definition try_transformPose (tf : Transformer) (message : Odometry)
    (pose : StampedPose) : M StampedPose :=
  let* fixed_frame := gets fixed_frame_ in
  log (TransformPose fixed_frame pose) ;;;
  match tf fixed_frame pose with
  | TfOk out => ret out
  | TfThrow _ =>
      let* name := gets name_ in
      log (RosError name (frame_id (header message)) fixed_frame) ;;;
      ret pose
  end.

Definition transformArrow (tf : Transformer) (message : Odometry) (arrow : positive) : M unit :=
  let* fixed_frame := gets fixed_frame_ in
  let frame_id := frame_id (header message) in
  let frame_id := if decide (frame_id = "") then fixed_frame else frame_id in
  let bt_q := orientation (pose message) in
  let pose := mkStamped (mkTransform bt_q (position (pose message)))
                        (stamp (header message)) frame_id in
  let* pose := try_transformPose tf message pose in
  let ypr := getEulerZYX (getRotation (data pose)) in
  let yaw := ypr.1.1 in
  let pitch := ypr.1.2 in
  let roll := ypr.2 in
  let orient := FromEulerAnglesZXY roll pitch yaw in
  Arrow_setOrientation arrow orient ;;;
  let pos := getOrigin (data pose) in
  let pos := robotToOgre pos in
  Arrow_setPosition arrow pos.

(** The test of [processMessage] against the last used message. *)
Definition within_tolerance (d : OdometryDisplay) (last message : Odometry) : bool :=
  let last_position := position (pose last) in
  let current_position := position (pose message) in
  let last_orientation := orientation (pose last) in
  let current_orientation := orientation (pose message) in
  Rltb (Vector3_length (Vector3_sub last_position current_position)) (position_tolerance_ d)
  && Rltb (Quaternion_normalise (Quaternion_sub last_orientation current_orientation))
          (angle_tolerance_ d).

Definition processMessage (tf : Transformer) (message : Odometry) : M unit := λ d,
  if match last_used_message_ d with
     | Some last => within_tolerance d last message
     | None => false
     end
  then (tt, d)
  else
    (let* arrow := new_Arrow (Rlit (8 # 10)) (Rlit (5 # 100)) (Rlit (2 # 10)) (Rlit (2 # 10)) in
     transformArrow tf message arrow ;;;
     (let* color := gets color_ in
      Arrow_setColor arrow (r_ color) (g_ color) (b_ color) (Rlit 1)) ;;;
     (let* this := gets this_ in Arrow_setUserData arrow this) ;;;
     modify (λ d, set_arrows (arrows_ d ++ [arrow]) d) ;;;
     modify (set_last_used_message (Some message))) d.

Definition targetFrameChanged : M unit := ret tt.

Definition fixedFrameChanged : M unit :=
  (let* fixed_frame := gets fixed_frame_ in
   modify (set_tf_filter_target_frame fixed_frame)) ;;;
  clear.

(** The loop of [update]: at most [fuel] rounds of
    [while (arrows_.size () > keep_) { delete front; pop_front }]. *)
Fixpoint update_loop (fuel : nat) : M unit := λ d,
  match fuel with
  | O => (tt, d)
  | S fuel' =>
      if (keep_ d <? N.of_nat (length (arrows_ d)))%N then
        match arrows_ d with
        | front :: rest =>
            (delete_Arrow front ;;; modify (set_arrows rest) ;;; update_loop fuel') d
        | [] => (tt, d)
        end
      else (tt, d)
  end.

(** [update]: every round pops one arrow, so the length of the buffer
    bounds the number of rounds. *)
Definition update (wall_dt ros_dt : Real) : M unit :=
  let* keep := gets keep_ in
  if (0 <? keep)%N then
    let* arrows := gets arrows_ in update_loop (length arrows)
  else ret tt.

Definition incomingMessage (tf : Transformer) (message : Odometry) : M unit :=
  processMessage tf message ;;;
  causeRender.

Definition reset : M unit := clear.

(** The destructor *)
Definition OdometryDisplay_dtor : M unit :=
  unsubscribe ;;;
  clear.

(** Modelled from the spec: [Display::enable] of the base class is in
    [display.cpp], which is not among the sources.  By the spec the
    display is Enabled or Disabled, and the step to Enabled makes the
    visual group visible and subscribes, which is [onEnable] run on an
    enabled display. *)
Definition enable : M unit :=
  modify (set_enabled true) ;;;
  onEnable.

(** Modelled from the spec: [Display::disable] of the base class, not
    among the sources either.  The step to Disabled unsubscribes,
    clears and hides, which is [onDisable]. *)
Definition disable : M unit :=
  modify (set_enabled false) ;;;
  onDisable.
End Methods.

(** ** Vocabulary of the statements *)

Section Vocabulary.
Context `{OgreOps}.

(** The number of [ROS_ERROR] calls in a stretch of the log. *)
Definition is_error (c : Call) : bool :=
  match c with RosError _ _ _ => true | _ => false end.
Fixpoint error_count (l : list Call) : nat :=
  match l with
  | [] => 0
  | c :: l' => (if is_error c then 1 else 0) + error_count l'
  end.

(** The frame [transformArrow] stamps the pose of a message with, and
    the pose it sends to the listener. *)
Definition source_frame (d : OdometryDisplay) (message : Odometry) : string :=
  if decide (frame_id (header message) = "") then fixed_frame_ d
  else frame_id (header message).
Definition tf_request (d : OdometryDisplay) (message : Odometry) : StampedPose :=
  mkStamped (mkTransform (orientation (pose message)) (position (pose message)))
            (stamp (header message)) (source_frame d message).

(** The listener throws on the request for this message. *)
Definition transform_fails (tf : Transformer) (d : OdometryDisplay) (message : Odometry) : bool :=
  match tf (fixed_frame_ d) (tf_request d message) with
  | TfOk _ => false
  | TfThrow _ => true
  end.

(** The pose the arrow is placed at: the answer of the listener, or
    the pose of the message as it came when the listener throws. *)
Definition placed_pose (tf : Transformer) (d : OdometryDisplay) (message : Odometry) : StampedPose :=
  match tf (fixed_frame_ d) (tf_request d message) with
  | TfOk out => out
  | TfThrow _ => tf_request d message
  end.

(** The calls one message that passes the test adds to the log. *)
Definition message_calls (tf : Transformer) (d : OdometryDisplay) (message : Odometry) : list Call :=
  match tf (fixed_frame_ d) (tf_request d message) with
  | TfOk _ => []
  | TfThrow _ => [RosError (name_ d) (frame_id (header message)) (fixed_frame_ d)]
  end ++ [TransformPose (fixed_frame_ d) (tf_request d message)].

(** The message is dropped by the tolerance test of [processMessage]. *)
Definition filtered (d : OdometryDisplay) (message : Odometry) : bool :=
  match last_used_message_ d with
  | Some last => within_tolerance d last message
  | None => false
  end.

(** The arrow a message is drawn as when the listener answers [p]. *)
Definition arrow_of (d : OdometryDisplay) (p : StampedPose) : Arrow :=
  let ypr := getEulerZYX (getRotation (data p)) in
  mkArrow (Rlit (8 # 10), Rlit (5 # 100), Rlit (2 # 10), Rlit (2 # 10))
          (Some (robotToOgre (getOrigin (data p))))
          (Some (FromEulerAnglesZXY ypr.2 ypr.1.2 ypr.1.1))
          (Some (r_ (color_ d), g_ (color_ d), b_ (color_ d), Rlit 1))
          (Some (this_ d)).

(** Processing the message appends one new arrow, drawn from the pose
    the listener left, and makes the message the last used one. *)
Definition accepted_as_new (tf : Transformer) (message : Odometry) (d : OdometryDisplay) : Prop :=
  let d' := exec_ (processMessage tf message) d in
  arrows_ d' = arrows_ d ++ [next_object_ d]
  ∧ objects_ d' !! next_object_ d = Some (arrow_of d (placed_pose tf d message))
  ∧ last_used_message_ d' = Some message.

(** What the host and the transport feed a display. *)
Inductive Input :=
| Message (tf : Transformer) (message : Odometry)
| Tick (wall_dt ros_dt : Real).

Definition step (i : Input) (d : OdometryDisplay) : OdometryDisplay :=
  match i with
  | Message tf message => exec_ (incomingMessage tf message) d
  | Tick wall_dt ros_dt => exec_ (update wall_dt ros_dt) d
  end.

Definition run (inputs : list Input) (d : OdometryDisplay) : OdometryDisplay :=
  foldl (λ d i, step i d) d inputs.

(** The messages of a run that pass the tolerance test, each judged in
    the state it arrives in. *)
Fixpoint unfiltered_count (inputs : list Input) (d : OdometryDisplay) : nat :=
  match inputs with
  | [] => 0
  | i :: rest =>
      match i with
      | Message _ message => if filtered d message then 0 else 1
      | Tick _ _ => 0
      end + unfiltered_count rest (step i d)
  end.

(** The messages of a run that pass the tolerance test and whose
    transform succeeds. *)
Fixpoint transformed_count (inputs : list Input) (d : OdometryDisplay) : nat :=
  match inputs with
  | [] => 0
  | i :: rest =>
      match i with
      | Message tf message =>
          if filtered d message || transform_fails tf d message then 0 else 1
      | Tick _ _ => 0
      end + transformed_count rest (step i d)
  end.

(** The pointers of the buffer are distinct and alive, and [new] has
    not handed out [next_object_] yet. *)
Definition wf (d : OdometryDisplay) : Prop :=
  NoDup (arrows_ d)
  ∧ Forall (λ p, is_Some (objects_ d !! p)) (arrows_ d)
  ∧ map_Forall (λ p _, (p < next_object_ d)%positive) (objects_ d).
End Vocabulary.

(** ** A build to run the model on

    OGRE built with [OGRE_DOUBLE_PRECISION]: every [Real] is a binary64
    float, so the conversions between [double] and [Ogre::Real] are
    exact.  The length of a vector is the square root of the sum of the
    squares; [Quaternion::normalise] returns [Norm ()], which in OGRE 1
    is the sum of the squares.  The trigonometry of the Euler angles is
    not computed: an angle is kept as the rotation it is read from, a
    matrix as the three angles it is made of. *)
Module Double.
Inductive Angle :=
| YawOf (w x y z : float)
| PitchOf (w x y z : float)
| RollOf (w x y z : float).

Definition float_of_Z (z : Z) : float :=
  match z with
  | Z0 => 0%float
  | Zpos p => PrimFloat.of_uint63 (Uint63.of_Z z)
  | Zneg p => PrimFloat.opp (PrimFloat.of_uint63 (Uint63.of_Z (Zpos p)))
  end.

#[export] Instance scalars : Scalars := {|
  Real := float;
  Radian := Angle;
  Matrix3 := Angle * Angle * Angle;
  Rlit := λ q, PrimFloat.div (float_of_Z (Qnum q)) (float_of_Z (Zpos (Qden q)));
  Rsub := PrimFloat.sub;
  Rltb := PrimFloat.ltb;
|}.

#[export] Instance ops : OgreOps := {|
  Vector3_length := λ v,
    PrimFloat.sqrt (vx v * vx v + vy v * vy v + vz v * vz v)%float;
  Quaternion_normalise := λ q,
    (qw q * qw q + qx q * qx q + qy q * qy q + qz q * qz q)%float;
  getEulerZYX := λ q,
    (YawOf (qw q) (qx q) (qy q) (qz q),
     PitchOf (qw q) (qx q) (qy q) (qz q),
     RollOf (qw q) (qx q) (qy q) (qz q));
  FromEulerAnglesZXY := λ a b c, (a, b, c);
  robotToOgre := λ v, mkVector3 (PrimFloat.opp (vy v)) (vz v) (PrimFloat.opp (vx v));
|}.

(** A message at (x, 0, 0) with the identity orientation. *)
Definition message_at (frame : string) (x : Q) : Odometry :=
  mkOdometry (mkHeader 0 (mkTime 0 0) frame)
             (mkPose (mkVector3 (Rlit x) (Rlit 0) (Rlit 0))
                     (mkQuaternion (Rlit 1) (Rlit 0) (Rlit 0) (Rlit 0))).

(** A listener that knows every frame and one that knows none. *)
Definition tf_identity : Transformer :=
  λ target p, TfOk (mkStamped (data p) (stamp_ p) target).
Definition tf_unavailable : Transformer :=
  λ target p, TfThrow "frame does not exist".

(** A fresh display on an empty scene, enabled in the frame [/map]. *)
Definition display0 : OdometryDisplay :=
  set_fixed_frame "/map" (set_enabled true (OdometryDisplay_ctor 1 "Odometry" ∅ 1)).

(** Messages along the x axis, 6 cm apart and further. *)
Definition msgA : Odometry := message_at "/odom" 0.
Definition msgB : Odometry := message_at "/odom" (6 # 100).
Definition msgC : Odometry := message_at "/odom" (12 # 100).
Definition msgD : Odometry := message_at "/odom" (5 # 10).

(** The display after [msgA], which it accepts as its first message. *)
Definition displayA : OdometryDisplay := exec_ (processMessage tf_identity msgA) display0.

(** Five messages a metre apart, then [keep_ = 3]. *)
Definition display5 : OdometryDisplay :=
  set_keep 3
    (run (map (λ x, Message tf_identity (message_at "/odom" (inject_Z x))) [0; 1; 2; 3; 4]%Z)
         display0).

(** A run with one dropped message and one failed transform. *)
Definition mixed_run : list Input :=
  [Message tf_identity msgA; Message tf_identity msgB; Tick 0%float 0%float;
   Message tf_unavailable msgD; Tick 0%float 0%float].
End Double.

(** ** Calls on a display

    The member functions as the host, the property editor and the
    transport call them, in any order. *)

Section Calls.
Context `{OgreOps}.

(** One call.  [enabled_] and [fixed_frame_] are members of the base
    class, which assigns them before it calls [onEnable], [onDisable] or
    [fixedFrameChanged]; its code is not among the sources, so
    [BaseAssigns] stands for any assignment it may make. *)
Inductive Op :=
| CallSetTopic (topic : string)
| CallSetColor (color : Color)
| CallSetKeep (keep : N)
| CallSetPositionTolerance (tol : Real)
| CallSetAngleTolerance (tol : Real)
| CallOnEnable
| CallOnDisable
| CallIncomingMessage (tf : Transformer) (message : Odometry)
| CallTargetFrameChanged
| CallFixedFrameChanged
| CallUpdate (wall_dt ros_dt : Real)
| CallReset
| BaseAssigns (enabled : bool) (fixed_frame : string).

Definition call (o : Op) (d : OdometryDisplay) : OdometryDisplay :=
  match o with
  | CallSetTopic topic => exec_ (setTopic topic) d
  | CallSetColor color => exec_ (setColor color) d
  | CallSetKeep keep => exec_ (setKeep keep) d
  | CallSetPositionTolerance tol => exec_ (setPositionTolerance tol) d
  | CallSetAngleTolerance tol => exec_ (setAngleTolerance tol) d
  | CallOnEnable => exec_ onEnable d
  | CallOnDisable => exec_ onDisable d
  | CallIncomingMessage tf message => exec_ (incomingMessage tf message) d
  | CallTargetFrameChanged => exec_ targetFrameChanged d
  | CallFixedFrameChanged => exec_ fixedFrameChanged d
  | CallUpdate wall_dt ros_dt => exec_ (update wall_dt ros_dt) d
  | CallReset => exec_ reset d
  | BaseAssigns enabled fixed_frame => set_fixed_frame fixed_frame (set_enabled enabled d)
  end.

Definition calls (ops : list Op) (d : OdometryDisplay) : OdometryDisplay :=
  foldl (λ d o, call o d) d ops.

(** The colour [setColor] and [processMessage] give an arrow. *)
Definition paint (color : Color) (o : Arrow) : Arrow :=
  mkArrow (arrow_proportions o) (arrow_position o) (arrow_orientation o)
          (Some (r_ color, g_ color, b_ color, Rlit 1)) (arrow_user_data o).

(** What one call does to the buffer and to the arrows: nothing, a new
    colour for the arrows of the buffer, a clear, one arrow pushed, or
    the front popped down to [keep_]. *)
Inductive Change (d d' : OdometryDisplay) : Prop :=
| change_none :
    arrows_ d' = arrows_ d → objects_ d' = objects_ d →
    next_object_ d' = next_object_ d → last_used_message_ d' = last_used_message_ d →
    color_ d' = color_ d → this_ d' = this_ d → Change d d'
| change_color (color : Color) :
    arrows_ d' = arrows_ d →
    objects_ d' = foldl (λ m q, alter (paint color) q m) (objects_ d) (arrows_ d) →
    next_object_ d' = next_object_ d → last_used_message_ d' = last_used_message_ d →
    color_ d' = color → this_ d' = this_ d → Change d d'
| change_clear :
    arrows_ d' = [] →
    objects_ d' = foldl (λ m q, delete q m) (objects_ d) (arrows_ d) →
    next_object_ d' = next_object_ d → last_used_message_ d' = None →
    color_ d' = color_ d → this_ d' = this_ d → Change d d'
| change_push (tf : Transformer) (message : Odometry) :
    arrows_ d' = arrows_ d ++ [next_object_ d] →
    objects_ d' = <[next_object_ d := arrow_of d (placed_pose tf d message)]> (objects_ d) →
    next_object_ d' = Pos.succ (next_object_ d) → last_used_message_ d' = Some message →
    color_ d' = color_ d → this_ d' = this_ d → Change d d'
| change_pop (n : nat) :
    n = length (arrows_ d) - N.to_nat (keep_ d) → (0 < keep_ d)%N →
    arrows_ d' = drop n (arrows_ d) →
    objects_ d' = foldl (λ m q, delete q m) (objects_ d) (take n (arrows_ d)) →
    next_object_ d' = next_object_ d → last_used_message_ d' = last_used_message_ d →
    color_ d' = color_ d → this_ d' = this_ d → Change d d'.

(** What a stretch of calls did to the arrows, seen from its two ends:
    [new] went on counting, a pointer of the buffer was there before or
    is new, and an arrow outside the buffer is as before, or deleted if
    it was in the buffer. *)
Definition settled (d d' : OdometryDisplay) : Prop :=
  (next_object_ d ≤ next_object_ d')%positive
  ∧ (∀ p, p ∈ arrows_ d' → p ∈ arrows_ d ∨ (next_object_ d ≤ p)%positive)
  ∧ (∀ p, p ∉ arrows_ d' →
          objects_ d' !! p = if decide (p ∈ arrows_ d) then None else objects_ d !! p).

(** The arrow [transformArrow] makes of an arrow. *)
Definition place (p : StampedPose) (o : Arrow) : Arrow :=
  let ypr := getEulerZYX (getRotation (data p)) in
  mkArrow (arrow_proportions o)
          (Some (robotToOgre (getOrigin (data p))))
          (Some (FromEulerAnglesZXY ypr.2 ypr.1.2 ypr.1.1))
          (arrow_color o) (arrow_user_data o).


(** The display is subscribed to nothing or to its topic. *)
Definition subscription_current (d : OdometryDisplay) : Prop :=
  sub_ d = None ∨ sub_ d = Some (topic_ d).

(** The buffer is empty exactly when there is no last used message. *)
Definition last_matches_buffer (d : OdometryDisplay) : Prop :=
  arrows_ d = [] ↔ last_used_message_ d = None.

(** Every arrow of the buffer is alive, has the proportions of the
    constructor call, the colour of the display with alpha 1, a position
    and an orientation, and is tagged with the display. *)
Definition display_arrow (d : OdometryDisplay) (o : Arrow) : Prop :=
  arrow_proportions o = (Rlit (8 # 10), Rlit (5 # 100), Rlit (2 # 10), Rlit (2 # 10))
  ∧ arrow_color o = Some (r_ (color_ d), g_ (color_ d), b_ (color_ d), Rlit 1)
  ∧ arrow_user_data o = Some (this_ d)
  ∧ is_Some (arrow_position o)
  ∧ is_Some (arrow_orientation o).
Definition uniform (d : OdometryDisplay) : Prop :=
  Forall (λ p, ∃ o, objects_ d !! p = Some o ∧ display_arrow d o) (arrows_ d).

(** Counting in a log and in a run. *)
Definition is_request (c : Call) : bool :=
  match c with TransformPose _ _ => true | _ => false end.
Definition is_render (c : Call) : bool :=
  match c with CauseRender => true | _ => false end.
Fixpoint count_calls (f : Call → bool) (l : list Call) : nat :=
  match l with
  | [] => 0
  | c :: l' => (if f c then 1 else 0) + count_calls f l'
  end.

Definition is_message (i : Input) : bool :=
  match i with Message _ _ => true | Tick _ _ => false end.

(** The messages of a run that pass the tolerance test and on whose
    request the listener throws. *)
Fixpoint failed_count (inputs : list Input) (d : OdometryDisplay) : nat :=
  match inputs with
  | [] => 0
  | i :: rest =>
      match i with
      | Message tf message =>
          if negb (filtered d message) && transform_fails tf d message then 1 else 0
      | Tick _ _ => 0
      end + failed_count rest (step i d)
  end.
End Calls.

(** A session on the build above, on a scene where another display has
    an arrow of its own. *)
Module DoubleCalls.
Import Double.

Definition foreign_arrow : Arrow :=
  mkArrow (1%float, 1%float, 1%float, 1%float) None None None (Some 9%positive).

Definition display_shared : OdometryDisplay :=
  OdometryDisplay_ctor 1 "Odometry" (<[7%positive := foreign_arrow]> ∅) 8.

Definition session : list Op :=
  [BaseAssigns true "/map"; CallOnEnable; CallSetTopic "/odom";
   CallIncomingMessage tf_identity msgA; CallIncomingMessage tf_identity msgB;
   CallIncomingMessage tf_unavailable msgD;
   CallSetColor (mkColor 0%float 0%float 1%float);
   CallSetKeep 1; CallUpdate 0%float 0%float;
   CallSetTopic "/odom_combined"; CallIncomingMessage tf_identity msgA].

Definition burst : list Input :=
  [Message tf_identity msgA; Message tf_identity msgB; Message tf_unavailable msgD].
End DoubleCalls.

(** ** What the member functions compute *)

Section Effects.
Context `{OgreOps}.
Local Open Scope stmt_scope.

Implicit Types (d : OdometryDisplay) (p q : positive) (l : list positive)
  (m : gmap positive Arrow).

Lemma set_objects_same d : set_objects (objects_ d) d = d.
Proof. by destruct d. Qed.

(** A loop over pointers whose body only touches the arrows is one
    fold over the scene. *)
Lemma for_each_scene (g : positive → gmap positive Arrow → gmap positive Arrow) l d :
  for_each (λ p, modify (λ d, set_objects (g p (objects_ d)) d)) l d
  = (tt, set_objects (foldl (λ m p, g p m) (objects_ d) l) d).
Proof.
  revert d. induction l as [|p l IH]; intros d; simpl.
  - by rewrite set_objects_same.
  - unfold bind at 1. simpl. rewrite IH. by destruct d.
Qed.

Lemma lookup_delete_all l m p :
  foldl (λ m q, delete q m) m l !! p = if decide (p ∈ l) then None else m !! p.
Proof.
  revert m. induction l as [|q l IH]; intros m; cbn [foldl].
  - case_decide as Hp; [by apply elem_of_nil in Hp | done].
  - rewrite IH. destruct (decide (p = q)) as [->|Hne].
    + rewrite lookup_delete_eq. rewrite (decide_True (P := q ∈ q :: l)) by left.
      by case_decide.
    + rewrite lookup_delete_ne by done.
      destruct (decide (p ∈ l)) as [Hin|Hout], (decide (p ∈ q :: l)) as [Hin'|Hout'];
        try done.
      * exfalso. apply Hout'. by right.
      * apply elem_of_cons in Hin' as [?|?]; done.
Qed.

Lemma lookup_alter_all (f : Arrow → Arrow) l m p :
  (∀ o, f (f o) = f o) →
  foldl (λ m q, alter f q m) m l !! p = if decide (p ∈ l) then f <$> m !! p else m !! p.
Proof.
  intros Hf. revert m. induction l as [|q l IH]; intros m; cbn [foldl].
  - case_decide as Hp; [by apply elem_of_nil in Hp | done].
  - rewrite IH. destruct (decide (p = q)) as [->|Hne].
    + rewrite lookup_alter_eq. rewrite (decide_True (P := q ∈ q :: l)) by left.
      case_decide; [|done]. destruct (m !! q); simpl; by rewrite ?Hf.
    + rewrite lookup_alter_ne by done.
      destruct (decide (p ∈ l)) as [Hin|Hout], (decide (p ∈ q :: l)) as [Hin'|Hout'];
        try done.
      * exfalso. apply Hout'. by right.
      * apply elem_of_cons in Hin' as [?|?]; done.
Qed.

(** [clear] deletes the arrows of the buffer, empties it, drops the
    last used message and clears the message filter. *)
Lemma clear_eq d :
  clear d =
  (tt, set_log (TfFilterClear :: log_ d)
         (set_last_used_message None
            (set_arrows []
               (set_objects (foldl (λ m q, delete q m) (objects_ d) (arrows_ d)) d)))).
Proof.
  unfold clear, bind, gets, log, delete_Arrow. simpl.
  rewrite (for_each_scene (λ p m, delete p m)). simpl.
  destruct d as [? ? ? ? ? ? ? ? ? ? ? ? ? last ? ? ?]; simpl.
  by destruct last.
Qed.

(** The rounds of the loop of [update]: with enough fuel it stops
    because its test fails, having popped and deleted the arrows in
    front of the last [keep_]. *)
Lemma update_loop_eq fuel d :
  length (arrows_ d) ≤ fuel →
  update_loop fuel d =
  (tt, set_arrows (drop (length (arrows_ d) - N.to_nat (keep_ d)) (arrows_ d))
         (set_objects
            (foldl (λ m q, delete q m) (objects_ d)
               (take (length (arrows_ d) - N.to_nat (keep_ d)) (arrows_ d))) d)).
Proof.
  revert d. induction fuel as [|fuel IH]; intros d Hlen.
  - destruct d as [? ? ? ? ? ? ? ? ? ? ? ? arrows ? ? ? ?]; simpl in *.
    destruct arrows; [done | simpl in Hlen; lia].
  - simpl. destruct (N.ltb_spec (keep_ d) (N.of_nat (length (arrows_ d)))) as [Hgt|Hle].
    + destruct d as [? ? ? ? ? ? ? ? ? keep ? ? arrows ? ? ? ?]; simpl in *.
      destruct arrows as [|front rest]; simpl in *; [lia|].
      unfold bind, modify, delete_Arrow; simpl. rewrite IH by (simpl; lia). simpl.
      replace (S (length rest) - N.to_nat keep)
        with (S (length rest - N.to_nat keep)) by lia.
      done.
    + replace (length (arrows_ d) - N.to_nat (keep_ d)) with 0 by lia.
      by destruct d.
Qed.

Lemma update_eq wall_dt ros_dt d :
  update wall_dt ros_dt d =
  (tt, if (0 <? keep_ d)%N then
         set_arrows (drop (length (arrows_ d) - N.to_nat (keep_ d)) (arrows_ d))
           (set_objects
              (foldl (λ m q, delete q m) (objects_ d)
                 (take (length (arrows_ d) - N.to_nat (keep_ d)) (arrows_ d))) d)
       else d).
Proof.
  unfold update, bind, gets; simpl.
  destruct (0 <? keep_ d)%N; [|done]. by apply update_loop_eq.
Qed.

(** A message that passes the test: one arrow is made, placed,
    coloured, tagged and pushed, and the message becomes the last used
    one, whatever the listener answered. *)
Lemma processMessage_unfiltered tf message d :
  filtered d message = false →
  processMessage tf message d =
  (tt, set_last_used_message (Some message)
         (set_arrows (arrows_ d ++ [next_object_ d])
            (set_objects
               (<[next_object_ d := arrow_of d (placed_pose tf d message)]> (objects_ d))
               (set_next_object (Pos.succ (next_object_ d))
                  (set_log (message_calls tf d message ++ log_ d) d))))).
Proof.
  intros Hf. unfold processMessage. unfold filtered in Hf. rewrite Hf.
  unfold bind, new_Arrow, transformArrow, try_transformPose, bind, gets, log, modify,
    Arrow_setColor, Arrow_setUserData, Arrow_setOrientation, Arrow_setPosition, on_Arrow,
    placed_pose, message_calls, tf_request, source_frame, ret.
  simpl.
  destruct (tf _ _); simpl; rewrite !alter_insert_eq; reflexivity.
Qed.

Lemma processMessage_filtered tf message d :
  filtered d message = true → processMessage tf message d = (tt, d).
Proof. intros Hf. unfold processMessage. unfold filtered in Hf. by rewrite Hf. Qed.
End Effects.

(** ** Messages *)

Section Messages.
Context `{OgreOps}.
Local Open Scope stmt_scope.

Implicit Types (d : OdometryDisplay) (tf : Transformer) (message last : Odometry).

Lemma error_count_app (l k : list Call) :
  error_count (l ++ k) = error_count l + error_count k.
Proof. induction l as [|c l IH]; simpl; [done|]. rewrite IH. lia. Qed.

Lemma accepted_when_unfiltered tf message d :
  filtered d message = false → accepted_as_new tf message d.
Proof.
  intros Hf. unfold accepted_as_new, exec_.
  rewrite processMessage_unfiltered by done. simpl.
  by rewrite lookup_insert_eq.
Qed.

(** C1, as amended: when the transform service throws on the request
    for a message that passed the tolerance test, one error is logged
    and processing goes on.  The arrow made for the message is placed
    at the pose the message came with, it is appended to the buffer,
    whose length grows by one, and the message becomes the last used
    one. *)
Theorem transform_failure_logs_and_draws tf message d :
  filtered d message = false →
  transform_fails tf d message = true →
  let d' := exec_ (processMessage tf message) d in
  log_ d' = RosError (name_ d) (frame_id (header message)) (fixed_frame_ d)
            :: TransformPose (fixed_frame_ d) (tf_request d message) :: log_ d
  ∧ error_count (log_ d') = S (error_count (log_ d))
  ∧ arrows_ d' = arrows_ d ++ [next_object_ d]
  ∧ length (arrows_ d') = S (length (arrows_ d))
  ∧ objects_ d' !! next_object_ d = Some (arrow_of d (tf_request d message))
  ∧ last_used_message_ d' = Some message.
Proof.
  intros Hf Hfail. unfold exec_. rewrite processMessage_unfiltered by done. simpl.
  unfold message_calls, placed_pose. unfold transform_fails in Hfail.
  destruct (tf (fixed_frame_ d) (tf_request d message)); [discriminate|]. simpl.
  rewrite lookup_insert_eq, length_app. simpl.
  repeat split; try done; lia.
Qed.

(** C2, as amended: while a last used message exists, a message is
    dropped exactly when its position is nearer than the position
    tolerance to that of the last used message and the value
    [normalise] returns for the difference of the two orientations is
    below the angle tolerance.  Dropped, it changes nothing; otherwise
    an arrow is appended and the message becomes the last used one.
    The comparison is with the last message that was used, which is
    the message before only when that one was not dropped. *)
Theorem tolerance_filter_against_last_used tf message last d :
  last_used_message_ d = Some last →
  let dist := Vector3_length
                (Vector3_sub (position (pose last)) (position (pose message))) in
  let ang := Quaternion_normalise
               (Quaternion_sub (orientation (pose last)) (orientation (pose message))) in
  let near := Rltb dist (position_tolerance_ d) = true
              ∧ Rltb ang (angle_tolerance_ d) = true in
  let d' := exec_ (processMessage tf message) d in
  (near ↔ arrows_ d' = arrows_ d ∧ last_used_message_ d' = Some last)
  ∧ (near → d' = d)
  ∧ (¬ near → accepted_as_new tf message d).
Proof.
  intros Hlast dist ang near d'.
  assert (Hnear : near ↔ filtered d message = true).
  { unfold near, filtered, within_tolerance. rewrite Hlast. fold dist ang.
    by rewrite andb_true_iff. }
  destruct (filtered d message) eqn:Hf.
  - assert (d' = d) as Hd.
    { unfold d', exec_. by rewrite processMessage_filtered. }
    rewrite Hd. split; [|split].
    + split; [done|]. intros _. by apply Hnear.
    + done.
    + intros Hn. exfalso. apply Hn. by apply Hnear.
  - pose proof (accepted_when_unfiltered tf message d Hf) as Hacc.
    assert (Hfar : ¬ near).
    { intros Hn. apply Hnear in Hn. discriminate. }
    split; [|split].
    + split; [done|]. intros [Harrows _]. exfalso.
      destruct Hacc as [Happ _]. fold d' in Happ. rewrite Happ in Harrows.
      apply (f_equal length) in Harrows. rewrite length_app in Harrows.
      simpl in Harrows. lia.
    + done.
    + done.
Qed.

(** C10: a message that arrives while there is no last used message is
    never tested against the tolerances: an arrow is appended for it
    and it becomes the last used message.  That is the state a display
    is in when constructed and after [clear], [reset], [onDisable] and
    [fixedFrameChanged]. *)
Theorem first_message_always_accepted tf message d :
  (last_used_message_ d = None → accepted_as_new tf message d)
  ∧ accepted_as_new tf message (exec_ clear d)
  ∧ accepted_as_new tf message (exec_ reset d)
  ∧ accepted_as_new tf message (exec_ onDisable d)
  ∧ accepted_as_new tf message (exec_ fixedFrameChanged d)
  ∧ accepted_as_new tf message
      (OdometryDisplay_ctor (this_ d) (name_ d) (objects_ d) (next_object_ d)).
Proof.
  assert (Hnone : ∀ d0, last_used_message_ d0 = None → accepted_as_new tf message d0).
  { intros d0 Hd0. apply accepted_when_unfiltered. unfold filtered. by rewrite Hd0. }
  split; [apply Hnone|].
  split; [|split; [|split; [|split]]]; apply Hnone.
  - unfold exec_. by rewrite clear_eq.
  - unfold exec_, reset. by rewrite clear_eq.
  - unfold exec_, onDisable, bind. by rewrite clear_eq.
  - unfold exec_, fixedFrameChanged, bind. by rewrite clear_eq.
  - done.
Qed.
End Messages.

(** ** The buffer *)

Section Buffer.
Context `{OgreOps}.
Local Open Scope stmt_scope.

Implicit Types (d : OdometryDisplay) (p : positive).

(** C3: with [keep_ > 0], [update] leaves at most [keep_] arrows.  It
    pops from the front, deleting each arrow it pops and no other, so
    the buffer after it is the buffer before it without its oldest
    arrows: the last [keep_] of them in their order (all of them when
    there were fewer). *)
Theorem update_keeps_newest wall_dt ros_dt d :
  (0 < keep_ d)%N →
  let d' := exec_ (update wall_dt ros_dt) d in
  let popped := take (length (arrows_ d) - N.to_nat (keep_ d)) (arrows_ d) in
  (N.of_nat (length (arrows_ d')) ≤ keep_ d)%N
  ∧ arrows_ d = popped ++ arrows_ d'
  ∧ arrows_ d' = drop (length (arrows_ d) - N.to_nat (keep_ d)) (arrows_ d)
  ∧ length (arrows_ d') = min (length (arrows_ d)) (N.to_nat (keep_ d))
  ∧ (∀ p, objects_ d' !! p = if decide (p ∈ popped) then None else objects_ d !! p)
  ∧ (NoDup (arrows_ d) → ∀ p, p ∈ arrows_ d' → objects_ d' !! p = objects_ d !! p)
  ∧ exec_ (update wall_dt ros_dt) d' = d'.
Proof.
  intros Hkeep d' popped.
  assert (Hd' : d' = set_arrows (drop (length (arrows_ d) - N.to_nat (keep_ d)) (arrows_ d))
                       (set_objects (foldl (λ m q, delete q m) (objects_ d) popped) d)).
  { unfold d', exec_. rewrite update_eq. simpl.
    by destruct (N.ltb_spec 0 (keep_ d)); [|lia]. }
  assert (Hlen : length (arrows_ d') = min (length (arrows_ d)) (N.to_nat (keep_ d))).
  { rewrite Hd'. simpl. rewrite length_drop. lia. }
  assert (Hobj : ∀ p, objects_ d' !! p
                      = if decide (p ∈ popped) then None else objects_ d !! p).
  { intros p. rewrite Hd'. simpl. apply lookup_delete_all. }
  split; [lia|]. split.
  { rewrite Hd'. simpl. unfold popped. by rewrite take_drop. }
  split; [by rewrite Hd'|]. split; [done|]. split; [done|]. split.
  - intros Hnodup p Hp. rewrite Hobj. case_decide as Hpop; [|done]. exfalso.
    rewrite Hd' in Hp. simpl in Hp.
    rewrite <- (take_drop (length (arrows_ d) - N.to_nat (keep_ d)) (arrows_ d)) in Hnodup.
    apply NoDup_app in Hnodup as (_ & Hdisj & _). by apply (Hdisj p).
  - unfold exec_. rewrite update_eq. simpl.
    destruct (0 <? keep_ d')%N; [|done].
    replace (length (arrows_ d') - N.to_nat (keep_ d')) with 0
      by (rewrite Hlen, Hd'; simpl; lia).
    by destruct d'.
Qed.

Lemma update_unbounded wall_dt ros_dt d :
  keep_ d = 0%N → exec_ (update wall_dt ros_dt) d = d.
Proof. intros Hk. unfold exec_. rewrite update_eq, Hk. done. Qed.

Lemma step_keep i d : keep_ (step i d) = keep_ d.
Proof.
  destruct i as [tf message|wall_dt ros_dt]; unfold step, exec_.
  - unfold incomingMessage, bind, causeRender, log, modify. simpl.
    destruct (filtered d message) eqn:Hf.
    + by rewrite processMessage_filtered.
    + by rewrite processMessage_unfiltered.
  - rewrite update_eq. simpl. by destruct (0 <? keep_ d)%N.
Qed.

Lemma step_length_unbounded i d :
  keep_ d = 0%N →
  length (arrows_ (step i d)) = length (arrows_ d) + unfiltered_count [i] d.
Proof.
  intros Hk. destruct i as [tf message|wall_dt ros_dt]; simpl.
  - unfold exec_, incomingMessage, bind, causeRender, log, modify. simpl.
    destruct (filtered d message) eqn:Hf.
    + rewrite processMessage_filtered by done. simpl. lia.
    + rewrite processMessage_unfiltered by done. simpl. rewrite length_app. simpl. lia.
  - rewrite update_unbounded by done. lia.
Qed.

Lemma run_length_unbounded inputs d :
  keep_ d = 0%N →
  length (arrows_ (run inputs d)) = length (arrows_ d) + unfiltered_count inputs d.
Proof.
  revert d. induction inputs as [|i inputs IH]; intros d Hk.
  - simpl. lia.
  - change (run (i :: inputs) d) with (run inputs (step i d)).
    rewrite IH by (by rewrite step_keep).
    rewrite step_length_unbounded by done. simpl. lia.
Qed.

(** C4, as amended: with [keep_ = 0], along any run of messages and
    ticks the buffer grows by one for every message that passes the
    tolerance test, whether or not its transform failed, and by nothing
    else; a tick changes nothing.  From a cleared display the length is
    the number of such messages. *)
Theorem unbounded_length_counts_unfiltered inputs d :
  keep_ d = 0%N →
  length (arrows_ (run inputs d)) = length (arrows_ d) + unfiltered_count inputs d
  ∧ length (arrows_ (run inputs (exec_ clear d))) = unfiltered_count inputs (exec_ clear d)
  ∧ (∀ wall_dt ros_dt, exec_ (update wall_dt ros_dt) d = d).
Proof.
  intros Hk. split; [by apply run_length_unbounded|]. split.
  - rewrite run_length_unbounded; unfold exec_; rewrite clear_eq; done.
  - intros. by apply update_unbounded.
Qed.

(** C5: [setColor] stores the colour and gives it, with alpha 1, to
    every arrow of the buffer.  The buffer keeps its pointers in their
    order, and an arrow keeps everything but its colour. *)
Theorem setColor_recolors_buffer color d :
  let d' := exec_ (setColor color) d in
  let paint := λ o, mkArrow (arrow_proportions o) (arrow_position o) (arrow_orientation o)
                            (Some (r_ color, g_ color, b_ color, Rlit 1))
                            (arrow_user_data o) in
  color_ d' = color
  ∧ arrows_ d' = arrows_ d
  ∧ (∀ p, objects_ d' !! p
          = if decide (p ∈ arrows_ d) then paint <$> objects_ d !! p else objects_ d !! p)
  ∧ last_used_message_ d' = last_used_message_ d
  ∧ log_ d' = CauseRender :: PropertyChanged color_property_ :: log_ d.
Proof.
  intros d' paint.
  assert (Hd' : d' = set_log (CauseRender :: PropertyChanged color_property_ :: log_ d)
                       (set_objects (foldl (λ m q, alter paint q m) (objects_ d) (arrows_ d))
                          (set_color color d))).
  { unfold d', exec_, setColor, bind, gets, propertyChanged, causeRender, log, modify,
      Arrow_setColor, on_Arrow. simpl.
    by rewrite (for_each_scene (λ q m, alter paint q m)). }
  rewrite Hd'. simpl. repeat split.
  intros p. by apply lookup_alter_all.
Qed.

(** C6: [setKeep] stores the number and notifies; it touches neither
    the buffer nor an arrow.  The buffer is cut to the new number by
    the next [update]. *)
Theorem setKeep_does_not_trim keep d :
  let d' := exec_ (setKeep keep) d in
  d' = set_log (PropertyChanged keep_property_ :: log_ d) (set_keep keep d)
  ∧ keep_ d' = keep
  ∧ arrows_ d' = arrows_ d
  ∧ objects_ d' = objects_ d
  ∧ last_used_message_ d' = last_used_message_ d
  ∧ (∀ wall_dt ros_dt,
       arrows_ (exec_ (update wall_dt ros_dt) d')
       = if (0 <? keep)%N then drop (length (arrows_ d) - N.to_nat keep) (arrows_ d)
         else arrows_ d).
Proof.
  intros d'. repeat split.
  intros wall_dt ros_dt. unfold exec_. rewrite update_eq. simpl.
  by destruct (0 <? keep)%N.
Qed.

(** C7: [disable] and then [enable] leave the buffer, the arrows and
    the last used message as one [clear] does: the buffer empty, its
    arrows deleted, no last used message; and the display is
    subscribed to its topic.  ([onEnable] after [onDisable] subscribes
    when the base class says the display is enabled.) *)
Theorem disable_enable_as_clear d :
  let d' := exec_ (disable ;;; enable) d in
  let c := exec_ clear d in
  arrows_ d' = arrows_ c
  ∧ objects_ d' = objects_ c
  ∧ last_used_message_ d' = last_used_message_ c
  ∧ arrows_ d' = []
  ∧ last_used_message_ d' = None
  ∧ (∀ p, objects_ d' !! p = if decide (p ∈ arrows_ d) then None else objects_ d !! p)
  ∧ sub_ d' = Some (topic_ d)
  ∧ topic_ d' = topic_ d
  ∧ enabled_ d' = true
  ∧ sub_ (exec_ (onDisable ;;; onEnable) d) = (if enabled_ d then Some (topic_ d) else None).
Proof.
  intros d' c.
  unfold d', c, exec_, disable, enable, onDisable, onEnable, subscribe, unsubscribe,
    bind, gets, modify.
  rewrite !clear_eq. simpl.
  repeat split; try done.
  - intros p. apply lookup_delete_all.
  - by destruct (enabled_ d).
Qed.

(** C8: [fixedFrameChanged] gives the message filter the fixed frame
    as its target and clears: whatever the buffer held, it is empty
    afterwards, each of its arrows is deleted and there is no last
    used message. *)
Theorem fixedFrameChanged_clears d :
  let d' := exec_ fixedFrameChanged d in
  arrows_ d' = []
  ∧ (∀ p, objects_ d' !! p = if decide (p ∈ arrows_ d) then None else objects_ d !! p)
  ∧ last_used_message_ d' = None
  ∧ tf_filter_target_frame_ d' = fixed_frame_ d.
Proof.
  intros d'. unfold d', exec_, fixedFrameChanged, bind, gets, modify.
  rewrite clear_eq. simpl. repeat split.
  intros p. apply lookup_delete_all.
Qed.
End Buffer.

(** ** Frames *)

Section Frames.
Context `{OgreOps}.
Local Open Scope stmt_scope.

Implicit Types (d : OdometryDisplay) (tf : Transformer) (message : Odometry).

End Frames.

(** ** The pointers of the buffer

    The buffer never holds a pointer twice or a pointer to a deleted
    arrow: every member function keeps [wf]. *)

Section Pointers.
Context `{OgreOps}.

Implicit Types (d : OdometryDisplay) (p : positive).

Lemma wf_ctor this name : wf (OdometryDisplay_ctor this name ∅ 1).
Proof.
  split; [apply NoDup_nil_2|]. split; [apply Forall_nil_2|]. apply map_Forall_empty.
Qed.

Lemma wf_next_fresh d : wf d → next_object_ d ∉ arrows_ d.
Proof.
  intros (_ & Hlive & Hbelow) Hin.
  rewrite Forall_forall in Hlive. destruct (Hlive _ Hin) as [o Ho].
  specialize (Hbelow _ _ Ho). simpl in Hbelow. lia.
Qed.

Lemma wf_processMessage tf message d : wf d → wf (exec_ (processMessage tf message) d).
Proof.
  intros Hwf. unfold exec_. destruct (filtered d message) eqn:Hf.
  { by rewrite processMessage_filtered. }
  rewrite processMessage_unfiltered by done.
  pose proof (wf_next_fresh d Hwf) as Hfresh.
  destruct Hwf as (Hnodup & Hlive & Hbelow).
  unfold wf. simpl. split; [|split].
  - apply NoDup_app. split; [done|]. split; [|apply NoDup_singleton].
    intros p Hp Hp'. apply list_elem_of_singleton in Hp'. by subst.
  - apply Forall_app. split.
    + eapply Forall_impl; [exact Hlive|]. intros p [o Ho]. simpl.
      destruct (decide (p = next_object_ d)) as [->|Hne].
      * rewrite lookup_insert_eq. by eexists.
      * rewrite lookup_insert_ne by done. by eexists.
    + apply Forall_singleton. rewrite lookup_insert_eq. by eexists.
  - apply map_Forall_insert_2; [lia|].
    eapply map_Forall_impl; [exact Hbelow|]. simpl. intros. lia.
Qed.

Lemma wf_update wall_dt ros_dt d : wf d → wf (exec_ (update wall_dt ros_dt) d).
Proof.
  intros (Hnodup & Hlive & Hbelow). unfold exec_. rewrite update_eq. simpl.
  destruct (0 <? keep_ d)%N; [|done].
  set (n := length (arrows_ d) - N.to_nat (keep_ d)).
  rewrite <- (take_drop n (arrows_ d)) in Hnodup, Hlive.
  apply NoDup_app in Hnodup as (_ & Hdisj & Hnodup).
  apply Forall_app in Hlive as [_ Hlive].
  unfold wf. simpl. split; [done|]. split.
  - rewrite Forall_forall in Hlive. apply Forall_forall. intros p Hp.
    rewrite lookup_delete_all. rewrite decide_False; [by apply Hlive|].
    intros Hp'. by apply (Hdisj p).
  - intros p o. rewrite lookup_delete_all. case_decide; [done|]. apply Hbelow.
Qed.

Lemma wf_clear d : wf d → wf (exec_ clear d).
Proof.
  intros (_ & _ & Hbelow). unfold exec_. rewrite clear_eq. unfold wf. simpl.
  split; [apply NoDup_nil_2|]. split; [apply Forall_nil_2|].
  intros p o. rewrite lookup_delete_all. case_decide; [done|]. apply Hbelow.
Qed.

Lemma wf_run inputs d : wf d → wf (run inputs d).
Proof.
  revert d. induction inputs as [|i inputs IH]; intros d Hwf; [done|].
  change (run (i :: inputs) d) with (run inputs (step i d)). apply IH.
  destruct i as [tf message|wall_dt ros_dt]; simpl.
  - pose proof (wf_processMessage tf message d Hwf) as Hwf'.
    unfold exec_, incomingMessage, bind, causeRender, log, modify in *. simpl.
    exact Hwf'.
  - by apply wf_update.
Qed.
End Pointers.

(** ** The statements on a running display *)

Section Scenarios.
Import Double.

(** C1 as stated fails: after [msgA] the listener throws on [msgD],
    which is not dropped by the tolerance test.  One error is logged,
    but the buffer grows from one arrow to two and the last used
    message changes from [msgA] to [msgD]. *)
Lemma transform_failure_not_aborted :
  let d := displayA in
  let d' := exec_ (processMessage tf_unavailable msgD) d in
  transform_fails tf_unavailable d msgD = true
  ∧ error_count (log_ d') = 1 + error_count (log_ d)
  ∧ length (arrows_ d) = 1
  ∧ length (arrows_ d') = 2
  ∧ last_used_message_ d = Some msgA
  ∧ last_used_message_ d' = Some msgD.
Proof. vm_compute. repeat split. Qed.

Lemma transform_failure_logs_and_draws_witness :
  let d' := exec_ (processMessage tf_unavailable msgD) displayA in
  filtered displayA msgD = false
  ∧ transform_fails tf_unavailable displayA msgD = true
  ∧ error_count (log_ d') = S (error_count (log_ displayA))
  ∧ length (arrows_ d') = S (length (arrows_ displayA))
  ∧ last_used_message_ d' = Some msgD.
Proof.
  assert (Hf : filtered displayA msgD = false) by (vm_compute; reflexivity).
  assert (Ht : transform_fails tf_unavailable displayA msgD = true)
    by (vm_compute; reflexivity).
  destruct (transform_failure_logs_and_draws tf_unavailable msgD displayA Hf Ht)
    as (_ & Hcount & _ & Hlen & _ & Hlast).
  repeat split; assumption.
Defined.

(** C2 as stated fails: [msgB] and [msgC] follow each other while
    [msgA] is the last used message.  They are 6 cm apart and equally
    oriented, within both tolerances; [msgB] is dropped, and [msgC],
    12 cm from [msgA], is accepted all the same. *)
Lemma consecutive_delta_not_decisive :
  let dB := exec_ (processMessage tf_identity msgB) displayA in
  let dC := exec_ (processMessage tf_identity msgC) dB in
  last_used_message_ displayA = Some msgA
  ∧ dB = displayA
  ∧ Rltb (Vector3_length (Vector3_sub (position (pose msgB)) (position (pose msgC))))
         (position_tolerance_ dB) = true
  ∧ Rltb (Quaternion_normalise
            (Quaternion_sub (orientation (pose msgB)) (orientation (pose msgC))))
         (angle_tolerance_ dB) = true
  ∧ arrows_ dC = arrows_ dB ++ [next_object_ dB]
  ∧ last_used_message_ dC = Some msgC.
Proof. vm_compute. repeat split. Qed.

Lemma tolerance_filter_against_last_used_witness :
  let d' := exec_ (processMessage tf_identity msgB) displayA in
  last_used_message_ displayA = Some msgA
  ∧ d' = displayA
  ∧ arrows_ (exec_ (processMessage tf_identity msgC) displayA)
    = arrows_ displayA ++ [next_object_ displayA].
Proof.
  assert (Hlast : last_used_message_ displayA = Some msgA) by (vm_compute; reflexivity).
  split; [exact Hlast|]. split.
  - apply (tolerance_filter_against_last_used tf_identity msgB msgA displayA Hlast).
    vm_compute. split; reflexivity.
  - apply (tolerance_filter_against_last_used tf_identity msgC msgA displayA Hlast).
    vm_compute. intros [Hnear _]. discriminate Hnear.
Defined.

(** The scenario of C3: [keep_ = 3] and five accepted messages; the
    tick leaves the last three arrows in their order. *)
Lemma update_keeps_newest_witness :
  (0 < keep_ display5)%N
  ∧ arrows_ display5 = [1; 2; 3; 4; 5]%positive
  ∧ arrows_ (exec_ (update 0%float 0%float) display5) = [3; 4; 5]%positive.
Proof.
  assert (Hk : (0 < keep_ display5)%N) by reflexivity.
  split; [exact Hk|]. split; [vm_compute; reflexivity|].
  destruct (@update_keeps_newest scalars 0%float 0%float display5 Hk) as (_ & _ & Hdrop & _).
  rewrite Hdrop. vm_compute. reflexivity.
Defined.

(** C4 as stated fails: with [keep_ = 0], of the three messages of
    [mixed_run] one is dropped and one has its transform fail, so one
    message is neither; the buffer ends with two arrows. *)
Lemma failed_transform_is_counted :
  let d := exec_ clear (set_keep 0 display0) in
  keep_ d = 0%N
  ∧ arrows_ d = []
  ∧ transformed_count mixed_run d = 1
  ∧ unfiltered_count mixed_run d = 2
  ∧ length (arrows_ (run mixed_run d)) = 2.
Proof. vm_compute. repeat split. Qed.

Lemma unbounded_length_counts_unfiltered_witness :
  let d := exec_ clear (set_keep 0 display0) in
  keep_ d = 0%N
  ∧ length (arrows_ (run mixed_run d)) = length (arrows_ d) + unfiltered_count mixed_run d.
Proof.
  assert (Hk : keep_ (exec_ clear (set_keep 0 display0)) = 0%N) by reflexivity.
  split; [exact Hk|].
  exact (proj1 (unbounded_length_counts_unfiltered mixed_run _ Hk)).
Defined.


(** C10 with both tolerances zero, after a [clear]. *)
Lemma first_message_always_accepted_witness :
  let d := set_position_tolerance 0%float (set_angle_tolerance 0%float (exec_ clear displayA)) in
  last_used_message_ d = None
  ∧ accepted_as_new tf_identity msgA d.
Proof.
  assert (Hnone : last_used_message_
                    (set_position_tolerance 0%float
                       (set_angle_tolerance 0%float (exec_ clear displayA))) = None)
    by (vm_compute; reflexivity).
  split; [exact Hnone|].
  exact (proj1 (first_message_always_accepted tf_identity msgA _) Hnone).
Defined.
End Scenarios.

(** ** Sequences of calls *)

Section Sequences.
Context `{OgreOps}.
Local Open Scope stmt_scope.

Implicit Types (d : OdometryDisplay) (p : positive) (o : Op).

Lemma setColor_eq color d :
  setColor color d =
  (tt, set_log (CauseRender :: PropertyChanged color_property_ :: log_ d)
         (set_objects (foldl (λ m q, alter (paint color) q m) (objects_ d) (arrows_ d))
            (set_color color d))).
Proof.
  unfold setColor, bind, gets, propertyChanged, causeRender, log, modify,
    Arrow_setColor, on_Arrow. simpl.
  by rewrite (for_each_scene (λ q m, alter (paint color) q m)).
Qed.

Lemma incomingMessage_eq tf message d :
  incomingMessage tf message d =
  (tt, set_log (CauseRender :: log_ (exec_ (processMessage tf message) d))
         (exec_ (processMessage tf message) d)).
Proof. reflexivity. Qed.

Lemma paint_idempotent color (a : Arrow) : paint color (paint color a) = paint color a.
Proof. done. Qed.

(** Every call is one of the five changes. *)
Lemma call_change o d : Change d (call o d).
Proof.
  destruct o as [topic|color|keep|tol|tol| | |tf message| | |wall_dt ros_dt| |enabled frame];
    simpl.
  - apply change_none; unfold exec_, setTopic, subscribe, unsubscribe, bind, gets,
      propertyChanged, causeRender, log, modify; simpl; by destruct (enabled_ d).
  - unfold exec_. rewrite setColor_eq. by apply (change_color _ _ color).
  - by apply change_none.
  - by apply change_none.
  - by apply change_none.
  - apply change_none; unfold exec_, onEnable, subscribe, bind, gets, modify; simpl;
      by destruct (enabled_ d).
  - unfold exec_, onDisable, unsubscribe, bind, modify. rewrite clear_eq.
    by apply change_clear.
  - unfold exec_. rewrite incomingMessage_eq. simpl. unfold exec_.
    destruct (filtered d message) eqn:Hf.
    + rewrite processMessage_filtered by done. by apply change_none.
    + rewrite processMessage_unfiltered by done. by apply (change_push _ _ tf message).
  - by apply change_none.
  - unfold exec_, fixedFrameChanged, bind, gets, modify. rewrite clear_eq.
    by apply change_clear.
  - unfold exec_. rewrite update_eq. simpl.
    destruct (N.ltb_spec 0 (keep_ d)) as [Hk|Hk].
    + by apply (change_pop _ _ (length (arrows_ d) - N.to_nat (keep_ d))).
    + by apply change_none.
  - unfold exec_, reset. rewrite clear_eq. by apply change_clear.
  - by apply change_none.
Qed.

Lemma calls_cons o ops d : calls (o :: ops) d = calls ops (call o d).
Proof. done. Qed.

Lemma calls_app ops ops' d : calls (ops ++ ops') d = calls ops' (calls ops d).
Proof. unfold calls. by rewrite foldl_app. Qed.

Lemma Change_wf d d' : Change d d' → wf d → wf d'.
Proof.
  intros Hc (Hnodup & Hlive & Hbelow).
  destruct Hc as [Ha Ho Hn _ _ _|color Ha Ho Hn _ _ _|Ha Ho Hn _ _ _
                  |tf message Ha Ho Hn _ _ _|n -> Hk Ha Ho Hn _ _ _];
    unfold wf; rewrite Ha, Ho, Hn.
  - done.
  - split; [done|]. split.
    + eapply Forall_impl; [exact Hlive|]. intros p [a Hp]. simpl.
      rewrite lookup_alter_all by apply paint_idempotent.
      case_decide; rewrite Hp; by eexists.
    + intros p a. rewrite lookup_alter_all by apply paint_idempotent.
      intros Hp. assert (is_Some (objects_ d !! p)) as [a' Hp'].
      { case_decide; [|by eexists]. destruct (objects_ d !! p); [by eexists|done]. }
      by apply (Hbelow p a').
  - split; [apply NoDup_nil_2|]. split; [apply Forall_nil_2|].
    intros p a. rewrite lookup_delete_all. case_decide; [done|]. apply Hbelow.
  - assert (Hfresh : next_object_ d ∉ arrows_ d).
    { intros Hin. rewrite Forall_forall in Hlive. destruct (Hlive _ Hin) as [a Hp].
      specialize (Hbelow _ _ Hp). simpl in Hbelow. lia. }
    split; [|split].
    + apply NoDup_app. split; [done|]. split; [|apply NoDup_singleton].
      intros p Hp Hp'. apply list_elem_of_singleton in Hp'. by subst.
    + apply Forall_app. split.
      * eapply Forall_impl; [exact Hlive|]. intros p [a Hp]. simpl.
        destruct (decide (p = next_object_ d)) as [->|Hne].
        -- rewrite lookup_insert_eq. by eexists.
        -- rewrite lookup_insert_ne by done. by eexists.
      * apply Forall_singleton. rewrite lookup_insert_eq. by eexists.
    + apply map_Forall_insert_2; [lia|].
      eapply map_Forall_impl; [exact Hbelow|]. simpl. intros. lia.
  - set (n := length (arrows_ d) - N.to_nat (keep_ d)).
    rewrite <- (take_drop n (arrows_ d)) in Hnodup, Hlive.
    apply NoDup_app in Hnodup as (_ & Hdisj & Hnodup).
    apply Forall_app in Hlive as [_ Hlive].
    split; [done|]. split.
    + rewrite Forall_forall in Hlive. apply Forall_forall. intros p Hp.
      rewrite lookup_delete_all. rewrite decide_False; [by apply Hlive|].
      intros Hp'. by apply (Hdisj p).
    + intros p a. rewrite lookup_delete_all. case_decide; [done|]. apply Hbelow.
Qed.

(** X1: whatever is called on it, in whatever order, a display whose
    buffer holds distinct pointers to live arrows keeps such a buffer:
    no pointer is pushed twice and no arrow of the buffer is deleted
    while it is in the buffer. *)
Theorem calls_keep_buffer_sound ops d : wf d → wf (calls ops d).
Proof.
  revert d. induction ops as [|o ops IH]; intros d Hwf; [done|].
  rewrite calls_cons. apply IH. exact (Change_wf d _ (call_change o d) Hwf).
Qed.

Lemma Change_settled d d' : Change d d' → settled d d'.
Proof.
  intros Hc.
  destruct Hc as [Ha Ho Hn _ _ _|color Ha Ho Hn _ _ _|Ha Ho Hn _ _ _
                  |tf message Ha Ho Hn _ _ _|n -> Hk Ha Ho Hn _ _ _];
    unfold settled; rewrite Ha, Ho, Hn.
  - split; [lia|]. split; [by left|]. intros p Hp. by rewrite decide_False.
  - split; [lia|]. split; [by left|]. intros p Hp.
    rewrite lookup_alter_all by apply paint_idempotent. by rewrite !decide_False.
  - split; [lia|]. split; [intros p Hp; by apply elem_of_nil in Hp|].
    intros p _. apply lookup_delete_all.
  - split; [lia|]. split.
    + intros p Hp. apply elem_of_app in Hp as [Hp|Hp]; [by left|].
      apply list_elem_of_singleton in Hp. right. subst. lia.
    + intros p Hp. rewrite elem_of_app, list_elem_of_singleton in Hp.
      rewrite lookup_insert_ne by (intros Heq; apply Hp; right; symmetry; exact Heq).
      rewrite decide_False; [done|]. intros Hin. apply Hp. by left.
  - set (n := length (arrows_ d) - N.to_nat (keep_ d)).
    split; [lia|]. split.
    + intros p Hp. left. rewrite <- (take_drop n (arrows_ d)). apply elem_of_app. by right.
    + intros p Hp. rewrite lookup_delete_all.
      destruct (decide (p ∈ arrows_ d)) as [Hin|Hout].
      * rewrite decide_True; [done|].
        rewrite <- (take_drop n (arrows_ d)) in Hin.
        apply elem_of_app in Hin as [Hin|Hin]; done.
      * rewrite decide_False; [done|]. intros Hin. apply Hout.
        rewrite <- (take_drop n (arrows_ d)). apply elem_of_app. by left.
Qed.

Lemma settled_trans d d1 d2 : wf d → settled d d1 → settled d1 d2 → settled d d2.
Proof.
  intros (_ & _ & Hbelow) (Hn1 & Hin1 & Hout1) (Hn2 & Hin2 & Hout2).
  split; [lia|]. split.
  - intros p Hp. destruct (Hin2 p Hp) as [Hp1|Hp1]; [by apply Hin1|]. right. lia.
  - intros p Hp. rewrite (Hout2 p Hp).
    destruct (decide (p ∈ arrows_ d1)) as [Hp1|Hp1]; [|by apply Hout1].
    destruct (decide (p ∈ arrows_ d)) as [|Hp0]; [done|].
    destruct (Hin1 p Hp1) as [|Hge]; [done|].
    destruct (objects_ d !! p) as [a|] eqn:Hlook; [|done].
    specialize (Hbelow p a Hlook). simpl in Hbelow. lia.
Qed.

Lemma calls_settled ops d : wf d → settled d (calls ops d).
Proof.
  revert d. induction ops as [|o ops IH]; intros d Hwf.
  - apply Change_settled. by apply change_none.
  - rewrite calls_cons.
    pose proof (call_change o d) as Hc.
    apply (settled_trans d (call o d)); [done|by apply Change_settled|].
    apply IH. exact (Change_wf d _ Hc Hwf).
Qed.

Lemma dtor_eq d :
  OdometryDisplay_dtor d =
  (tt, set_log (TfFilterClear :: log_ d)
         (set_last_used_message None
            (set_arrows []
               (set_objects (foldl (λ m q, delete q m) (objects_ d) (arrows_ d))
                  (set_sub None d))))).
Proof. unfold OdometryDisplay_dtor, unsubscribe, bind, modify. by rewrite clear_eq. Qed.

(** X2: the display owns the arrows of its buffer and nothing else.
    After any calls an arrow that is not in the buffer is as it was
    before them if it was not in the buffer then, and deleted if it was:
    an arrow leaves the buffer only by being deleted, and no arrow of
    the scene outside the buffer is changed or deleted.  So the
    destructor, whenever it runs, leaves the scene as it was before the
    calls without the arrows the buffer held then. *)
Theorem display_owns_its_arrows ops d :
  wf d →
  let d' := calls ops d in
  (∀ p, p ∉ arrows_ d' →
        objects_ d' !! p = if decide (p ∈ arrows_ d) then None else objects_ d !! p)
  ∧ (∀ p, objects_ (exec_ OdometryDisplay_dtor d') !! p
          = if decide (p ∈ arrows_ d) then None else objects_ d !! p)
  ∧ arrows_ (exec_ OdometryDisplay_dtor d') = []
  ∧ sub_ (exec_ OdometryDisplay_dtor d') = None.
Proof.
  intros Hwf d'.
  pose proof (calls_settled ops d Hwf) as (Hn & Hin & Hout). fold d' in Hn, Hin, Hout.
  split; [exact Hout|]. unfold exec_. rewrite dtor_eq. simpl.
  split; [|done]. intros p. rewrite lookup_delete_all.
  destruct (decide (p ∈ arrows_ d')) as [Hp|Hp]; [|by apply Hout].
  destruct (decide (p ∈ arrows_ d)) as [|Hp0]; [done|].
  destruct (Hin p Hp) as [|Hge]; [done|].
  destruct Hwf as (_ & _ & Hbelow).
  destruct (objects_ d !! p) as [a|] eqn:Hlook; [|done].
  specialize (Hbelow p a Hlook). simpl in Hbelow. lia.
Qed.

Lemma Change_uniform d d' : Change d d' → wf d → uniform d → uniform d'.
Proof.
  intros Hc (Hnodup & Hlive & Hbelow) Hu. unfold uniform, display_arrow in *.
  destruct Hc as [Ha Ho Hn _ Hcol Hthis|color Ha Ho Hn _ Hcol Hthis|Ha Ho Hn _ Hcol Hthis
                  |tf message Ha Ho Hn _ Hcol Hthis|n -> Hk Ha Ho Hn _ Hcol Hthis];
    rewrite Ha, Ho, Hcol, Hthis.
  - done.
  - rewrite Forall_forall in Hu. apply Forall_forall. intros p Hp.
    destruct (Hu p Hp) as (a & Hlook & Hprop & _ & Hdata & Hpos & Hori).
    exists (paint color a). rewrite lookup_alter_all by apply paint_idempotent.
    rewrite decide_True by done. rewrite Hlook. done.
  - apply Forall_nil_2.
  - assert (Hfresh : next_object_ d ∉ arrows_ d).
    { intros Hin. rewrite Forall_forall in Hlive. destruct (Hlive _ Hin) as [a Hp].
      specialize (Hbelow _ _ Hp). simpl in Hbelow. lia. }
    apply Forall_app. split.
    + rewrite Forall_forall in Hu. apply Forall_forall. intros p Hp.
      destruct (Hu p Hp) as (a & Hlook & Hrest). exists a.
      rewrite lookup_insert_ne by (intros <-; done). done.
    + apply Forall_singleton. eexists. rewrite lookup_insert_eq. split; [done|].
      simpl. repeat split; by eexists.
  - set (n := length (arrows_ d) - N.to_nat (keep_ d)).
    rewrite <- (take_drop n (arrows_ d)) in Hnodup, Hu.
    apply NoDup_app in Hnodup as (_ & Hdisj & _).
    apply Forall_app in Hu as [_ Hu].
    rewrite Forall_forall in Hu. apply Forall_forall. intros p Hp.
    destruct (Hu p Hp) as (a & Hlook & Hrest). exists a.
    rewrite lookup_delete_all. rewrite decide_False; [done|].
    intros Hp'. by apply (Hdisj p).
Qed.

(** X3: every arrow of the buffer always shows the current colour of the
    display with alpha 1, has the proportions of the constructor call, a
    position and an orientation, and carries the display as its user
    data: [setColor] repaints the arrows that exist, a later message
    takes the colour set last, and no call changes an arrow otherwise. *)
Theorem buffer_arrows_uniform ops d :
  wf d → uniform d → uniform (calls ops d).
Proof.
  revert d. induction ops as [|o ops IH]; intros d Hwf Hu; [done|].
  rewrite calls_cons. pose proof (call_change o d) as Hc. apply IH.
  - exact (Change_wf d _ Hc Hwf).
  - exact (Change_uniform d _ Hc Hwf Hu).
Qed.

Lemma Change_last_matches d d' : Change d d' → last_matches_buffer d → last_matches_buffer d'.
Proof.
  intros Hc Hl. unfold last_matches_buffer in *.
  destruct Hc as [Ha _ _ Hlast _ _|color Ha _ _ Hlast _ _|Ha _ _ Hlast _ _
                  |tf message Ha _ _ Hlast _ _|n -> Hk Ha _ _ Hlast _ _];
    rewrite Ha, Hlast; try done.
  - split; [|done]. intros Happ. by apply app_nil in Happ as [_ ?].
  - rewrite <- Hl. split.
    + intros Hdrop. apply (f_equal length) in Hdrop. rewrite length_drop in Hdrop.
      simpl in Hdrop. apply length_zero_iff_nil. lia.
    + intros ->. by rewrite drop_nil.
Qed.

(** X4: the buffer is empty exactly when there is no last used message,
    after any calls on a display for which that holds (a new one, for
    instance).  [update] never pops the last arrow, since it runs only
    with [keep_ > 0]; the arrows go only when the last used message
    goes, in [clear]. *)
Theorem last_used_message_matches_buffer ops d :
  last_matches_buffer d → last_matches_buffer (calls ops d).
Proof.
  revert d. induction ops as [|o ops IH]; intros d Hl; [done|].
  rewrite calls_cons. apply IH. exact (Change_last_matches d _ (call_change o d) Hl).
Qed.

Lemma call_sub_topic o d :
  (sub_ (call o d), topic_ (call o d)) =
  match o with
  | CallSetTopic topic => (if enabled_ d then Some topic else None, topic)
  | CallOnEnable => (if enabled_ d then Some (topic_ d) else sub_ d, topic_ d)
  | CallOnDisable => (None, topic_ d)
  | _ => (sub_ d, topic_ d)
  end.
Proof.
  destruct o as [topic|color|keep|tol|tol| | |tf message| | |wall_dt ros_dt| |enabled frame];
    cbn [call].
  - unfold exec_, setTopic, subscribe, unsubscribe, bind, gets, propertyChanged,
      causeRender, log, modify; simpl. by destruct (enabled_ d).
  - unfold exec_. by rewrite setColor_eq.
  - done.
  - done.
  - done.
  - unfold exec_, onEnable, subscribe, bind, gets, modify; simpl. by destruct (enabled_ d).
  - unfold exec_, onDisable, unsubscribe, bind, modify. by rewrite clear_eq.
  - unfold exec_. rewrite incomingMessage_eq. simpl. unfold exec_.
    destruct (filtered d message) eqn:Hf.
    + by rewrite processMessage_filtered.
    + by rewrite processMessage_unfiltered.
  - done.
  - unfold exec_, fixedFrameChanged, bind, gets, modify. by rewrite clear_eq.
  - unfold exec_. rewrite update_eq. simpl. by destruct (0 <? keep_ d)%N.
  - unfold exec_, reset. by rewrite clear_eq.
  - done.
Qed.

(** X5: the display is never subscribed to a topic other than its
    current one.  [setTopic] unsubscribes before it changes the topic,
    and the only [subscribe] is to [topic_]; this holds whatever the
    base class does to [enabled_] between the calls. *)
Theorem subscription_follows_topic ops d :
  subscription_current d → subscription_current (calls ops d).
Proof.
  revert d. induction ops as [|o ops IH]; intros d Hs; [done|].
  rewrite calls_cons. apply IH. unfold subscription_current in *.
  pose proof (f_equal fst (call_sub_topic o d)) as Hsub.
  pose proof (f_equal snd (call_sub_topic o d)) as Htopic.
  cbn [fst snd] in Hsub, Htopic. rewrite Hsub, Htopic.
  destruct o; cbn [fst snd]; try done.
  - destruct (enabled_ d); [by right|by left].
  - destruct (enabled_ d); [by right|done].
  - by left.
Qed.

(** X6: [setTopic] stores the topic and leaves the display subscribed to
    it exactly when the display is enabled; called on a disabled display
    it drops whatever subscription there was.  It leaves the buffer, the
    arrows and the last used message alone, and a call of it wipes out
    the one before: only the log tells two calls from the second
    alone. *)
Theorem setTopic_resubscribes topic d :
  let d' := exec_ (setTopic topic) d in
  topic_ d' = topic
  ∧ sub_ d' = (if enabled_ d then Some topic else None)
  ∧ arrows_ d' = arrows_ d
  ∧ objects_ d' = objects_ d
  ∧ last_used_message_ d' = last_used_message_ d
  ∧ log_ d' = CauseRender :: PropertyChanged topic_property_ :: log_ d
  ∧ (∀ topic0, set_log (log_ d') (exec_ (setTopic topic) (exec_ (setTopic topic0) d)) = d').
Proof.
  intros d'. unfold d', exec_, setTopic, subscribe, unsubscribe, bind, gets,
    propertyChanged, causeRender, log, modify; simpl.
  destruct (enabled_ d) eqn:He; simpl; repeat split; intros topic0; by rewrite ?He.
Qed.

Lemma step_arrows i d :
  arrows_ (step i d)
  = match i with
    | Message _ message =>
        if filtered d message then arrows_ d else arrows_ d ++ [next_object_ d]
    | Tick _ _ =>
        if (0 <? keep_ d)%N
        then drop (length (arrows_ d) - N.to_nat (keep_ d)) (arrows_ d)
        else arrows_ d
    end.
Proof.
  destruct i as [tf message|wall_dt ros_dt]; cbn [step]; unfold exec_.
  - rewrite incomingMessage_eq. simpl. unfold exec_.
    destruct (filtered d message) eqn:Hf.
    + by rewrite processMessage_filtered.
    + by rewrite processMessage_unfiltered.
  - rewrite update_eq. simpl. by destruct (0 <? keep_ d)%N.
Qed.

Lemma run_cons i inputs d : run (i :: inputs) d = run inputs (step i d).
Proof. done. Qed.

Lemma run_app inputs inputs' d : run (inputs ++ inputs') d = run inputs' (run inputs d).
Proof. unfold run. by rewrite foldl_app. Qed.

Lemma run_keep inputs d : keep_ (run inputs d) = keep_ d.
Proof.
  revert d. induction inputs as [|i inputs IH]; intros d; [done|].
  by rewrite run_cons, IH, step_keep.
Qed.

(** X7: messages only push.  Along a run of messages with no tick in
    between the buffer before is a prefix of the buffer after, whatever
    [keep_] is: no arrow is removed or moved, and the buffer grows past
    [keep_] by one arrow for every message that is not dropped. *)
Theorem messages_only_push inputs d :
  Forall (λ i, is_message i = true) inputs →
  arrows_ d `prefix_of` arrows_ (run inputs d)
  ∧ length (arrows_ (run inputs d)) = length (arrows_ d) + unfiltered_count inputs d.
Proof.
  revert d. induction inputs as [|i inputs IH]; intros d Hm.
  - split; [done|]. simpl. lia.
  - apply Forall_cons in Hm as [Hi Hm]. rewrite run_cons.
    destruct (IH (step i d) Hm) as [Hpre Hlen].
    destruct i as [tf message|]; [|done].
    rewrite step_arrows in Hpre, Hlen. cbn [unfiltered_count].
    destruct (filtered d message).
    + split; [done|]. lia.
    + split.
      * etrans; [|exact Hpre]. by apply prefix_app_r.
      * rewrite Hlen, length_app. simpl. lia.
Qed.

Lemma run_length_le inputs d :
  length (arrows_ (run inputs d)) ≤ length (arrows_ d) + length inputs.
Proof.
  revert d. induction inputs as [|i inputs IH]; intros d; [simpl; lia|].
  rewrite run_cons. etrans; [apply IH|]. rewrite step_arrows.
  destruct i as [tf message|wall_dt ros_dt]; simpl.
  - destruct (filtered d message); rewrite ?length_app; simpl; lia.
  - destruct (0 <? keep_ d)%N; rewrite ?length_drop; lia.
Qed.

(** X8: with [keep_ > 0] the buffer is over [keep_] by at most the
    number of messages that came since the last tick. *)
Theorem overshoot_bounded_by_pending inputs wall_dt ros_dt rest d :
  (0 < keep_ d)%N →
  length (arrows_ (run (inputs ++ Tick wall_dt ros_dt :: rest) d))
  ≤ N.to_nat (keep_ d) + length rest.
Proof.
  intros Hk. rewrite run_app, run_cons.
  etrans; [apply run_length_le|]. apply Nat.add_le_mono_r.
  rewrite step_arrows, run_keep.
  destruct (N.ltb_spec 0 (keep_ d)); [|lia]. rewrite length_drop. lia.
Qed.

Lemma step_log i d :
  log_ (step i d)
  = match i with
    | Message tf message =>
        CauseRender :: (if filtered d message then [] else message_calls tf d message)
                       ++ log_ d
    | Tick _ _ => log_ d
    end.
Proof.
  destruct i as [tf message|wall_dt ros_dt]; cbn [step]; unfold exec_.
  - rewrite incomingMessage_eq. simpl. unfold exec_.
    destruct (filtered d message) eqn:Hf.
    + by rewrite processMessage_filtered.
    + by rewrite processMessage_unfiltered.
  - rewrite update_eq. simpl. by destruct (0 <? keep_ d)%N.
Qed.

Lemma count_calls_app f (l k : list Call) :
  count_calls f (l ++ k) = count_calls f l + count_calls f k.
Proof. induction l as [|c l IH]; simpl; [done|]. rewrite IH. lia. Qed.

(** X9: the transform service is asked once for every message that
    passes the tolerance test and never for one that is dropped, and an
    error is logged once for every request on which it throws: along any
    run of messages and ticks the log gains as many requests as there
    are messages that pass, and as many errors as there are failures
    among them. *)
Theorem transform_requests_accounted inputs d :
  count_calls is_request (log_ (run inputs d))
  = count_calls is_request (log_ d) + unfiltered_count inputs d
  ∧ error_count (log_ (run inputs d)) = error_count (log_ d) + failed_count inputs d.
Proof.
  revert d. induction inputs as [|i inputs IH]; intros d.
  - simpl. lia.
  - rewrite run_cons. destruct (IH (step i d)) as [Hreq Herr].
    rewrite Hreq, Herr, step_log. clear IH Hreq Herr.
    destruct i as [tf message|wall_dt ros_dt]; [|simpl; lia].
    cbn [unfiltered_count failed_count].
    destruct (filtered d message); simpl; [lia|].
    rewrite count_calls_app, error_count_app.
    unfold message_calls, transform_fails.
    destruct (tf (fixed_frame_ d) (tf_request d message)); simpl; lia.
Qed.

(** X10: every message asks for one render, dropped or not, and a tick
    for none. *)
Theorem one_render_per_message inputs d :
  count_calls is_render (log_ (run inputs d))
  = count_calls is_render (log_ d) + length (filter (λ i, is_message i = true) inputs).
Proof.
  revert d. induction inputs as [|i inputs IH]; intros d.
  - simpl. lia.
  - rewrite run_cons, IH, step_log.
    destruct i as [tf message|wall_dt ros_dt].
    + rewrite filter_cons_True by done. simpl.
      destruct (filtered d message); simpl; [lia|].
      rewrite count_calls_app. unfold message_calls.
      destruct (tf (fixed_frame_ d) (tf_request d message)); simpl; lia.
    + rewrite filter_cons_False by done. lia.
Qed.


(** X12: [transformArrow] changes the arrow it is given and nothing
    else: it gives it the position and the orientation of the pose the
    listener left (the pose of the message when the listener threw) and
    keeps its colour, its user data and its proportions; the buffer, the
    last used message and every other arrow are untouched, and through a
    pointer to no arrow no arrow appears. *)
Theorem transformArrow_places_one_arrow tf message arrow d :
  let d' := exec_ (transformArrow tf message arrow) d in
  objects_ d' !! arrow = place (placed_pose tf d message) <$> objects_ d !! arrow
  ∧ (∀ p, p ≠ arrow → objects_ d' !! p = objects_ d !! p)
  ∧ arrows_ d' = arrows_ d
  ∧ last_used_message_ d' = last_used_message_ d
  ∧ next_object_ d' = next_object_ d.
Proof.
  intros d'.
  unfold d', exec_, transformArrow, try_transformPose, bind, gets, log, modify,
    Arrow_setOrientation, Arrow_setPosition, on_Arrow, ret, placed_pose, tf_request,
    source_frame. simpl.
  destruct (tf _ _); simpl; (split; [|split; [|done]]).
  - rewrite !lookup_alter_eq. by destruct (objects_ d !! arrow).
  - intros p Hp. by rewrite !lookup_alter_ne.
  - rewrite !lookup_alter_eq. by destruct (objects_ d !! arrow).
  - intros p Hp. by rewrite !lookup_alter_ne.
Qed.
End Sequences.

(** ** The sequences on a running display *)

Section CallScenarios.
Import Double DoubleCalls.

Lemma wf_display_shared : wf display_shared.
Proof.
  split; [apply NoDup_nil_2|]. split; [apply Forall_nil_2|].
  apply map_Forall_insert_2; [done|apply map_Forall_empty].
Qed.

Lemma calls_keep_buffer_sound_witness :
  wf display_shared
  ∧ arrows_ (calls session display_shared) = [9; 10]%positive
  ∧ wf (calls session display_shared).
Proof.
  split; [exact wf_display_shared|]. split; [vm_compute; reflexivity|].
  exact (calls_keep_buffer_sound session display_shared wf_display_shared).
Defined.

Lemma display_owns_its_arrows_witness :
  wf display_shared
  ∧ objects_ (exec_ OdometryDisplay_dtor (calls session display_shared)) !! 7%positive
    = Some foreign_arrow
  ∧ objects_ (exec_ OdometryDisplay_dtor (calls session display_shared)) !! 10%positive
    = None.
Proof.
  split; [exact wf_display_shared|].
  destruct (display_owns_its_arrows session display_shared wf_display_shared)
    as (_ & Hdtor & _).
  split; rewrite Hdtor; vm_compute; reflexivity.
Defined.

Lemma buffer_arrows_uniform_witness :
  wf display_shared
  ∧ uniform display_shared
  ∧ uniform (calls session display_shared).
Proof.
  assert (Hu : uniform display_shared) by apply Forall_nil_2.
  split; [exact wf_display_shared|]. split; [exact Hu|].
  exact (buffer_arrows_uniform session display_shared wf_display_shared Hu).
Defined.

Lemma last_used_message_matches_buffer_witness :
  last_matches_buffer display_shared
  ∧ last_matches_buffer (calls session display_shared).
Proof.
  assert (Hl : last_matches_buffer display_shared) by (split; reflexivity).
  split; [exact Hl|].
  exact (last_used_message_matches_buffer session display_shared Hl).
Defined.

Lemma subscription_follows_topic_witness :
  subscription_current display_shared
  ∧ sub_ (calls session display_shared) = Some "/odom_combined"
  ∧ subscription_current (calls session display_shared).
Proof.
  assert (Hs : subscription_current display_shared) by (left; reflexivity).
  split; [exact Hs|]. split; [vm_compute; reflexivity|].
  exact (subscription_follows_topic session display_shared Hs).
Defined.

Lemma messages_only_push_witness :
  Forall (λ i, is_message i = true) burst
  ∧ (keep_ (set_keep 1 display0) < N.of_nat (length (arrows_ (run burst (set_keep 1 display0)))))%N
  ∧ arrows_ (set_keep 1 display0) `prefix_of` arrows_ (run burst (set_keep 1 display0)).
Proof.
  assert (Hm : Forall (λ i, is_message i = true) burst)
    by (repeat constructor).
  split; [exact Hm|]. split; [vm_compute; reflexivity|].
  exact (proj1 (messages_only_push burst (set_keep 1 display0) Hm)).
Defined.

Lemma overshoot_bounded_by_pending_witness :
  (0 < keep_ display5)%N
  ∧ length (arrows_ (run (burst ++ Tick 0%float 0%float :: burst) display5))
    ≤ N.to_nat (keep_ display5) + length burst.
Proof.
  assert (Hk : (0 < keep_ display5)%N) by reflexivity.
  split; [exact Hk|].
  exact (@overshoot_bounded_by_pending scalars ops burst 0%float 0%float burst display5 Hk).
Defined.

End CallScenarios.

(** ** A message without a frame and a listener that throws *)

Section FrameScenarios.
Import Double.

End FrameScenarios.
